(** * video_keev: the workflow orchestration core, embedded in Rocq

    The development follows the Python sources:
    - [src/utils/file_utils.py]   : [ensure_directory], [remove_directory], [safe_copy]
    - [src/video/processor.py]    : [VideoProcessor]
    - [src/workflow/replacement_processor.py] : [ReplacementProcessor]
    - [src/api/client.py]         : [ComfyUIClient]
    - [src/workflow/manager.py]   : [WorkflowManager]

    Python ints are represented by [Z], frame rates by IEEE 754 binary64
    numbers as Python's [float] has them, the progress of a session
    (which is only assigned and compared) by exact rationals, path
    strings by their list of components, and the file system by a finite
    map from paths to nodes. *)

From Stdlib Require Import QArith Qround SpecFloat.
From stdpp Require Import base gmap strings list sorting pretty.

Local Open Scope Z_scope.

(** ** Exceptions and results *)

Inductive exn :=
  | FileNotFoundError
  | FileExistsError
  | NotADirectoryError
  | IsADirectoryError
  | ValueError
  | RuntimeError
  | ZeroDivisionError
  | OverflowError
  | Cv2Error
  | HTTPError.

Inductive result (A : Type) :=
  | Ok (a : A)
  | Raise (e : exn).
Arguments Ok {A} a.
Arguments Raise {A} e.

Definition is_ok {A} (r : result A) : bool :=
  match r with Ok _ => true | Raise _ => false end.

Global Instance result_ret : MRet result := λ A a, Ok a.
Global Instance result_bind : MBind result := λ A B k r,
  match r with Ok a => k a | Raise e => Raise e end.

(** ** Floats

    A Python [float] is a binary64 number: a zero, an infinity, a NaN, or
    [(-1)^s * m * 2^e]. Division rounds to the nearest float, ties to
    even. *)

Abbreviation float := spec_float.

Definition float_prec : Z := 53.
Definition float_emax : Z := 1024.

(** The float of an int (exact up to [2^53]). *)
Definition float_of_Z (z : Z) : float := binary_normalize float_prec float_emax z 0 false.

(** [x / y] *)
Definition float_div (x y : float) : result float :=
  match y with
  | S754_zero _ => Raise ZeroDivisionError
  | _ => Ok (SFdiv float_prec float_emax x y)
  end.

(** [int(x)]: truncation towards zero. *)
Definition int_of_float (x : float) : result Z :=
  match x with
  | S754_zero _ => Ok 0
  | S754_finite s m e =>
      let magnitude := Z.shiftl (Z.pos m) e in
      Ok (if s then - magnitude else magnitude)
  | S754_infinity _ => Raise OverflowError
  | S754_nan => Raise ValueError
  end.

(** [0 < x] *)
Definition float_positive (x : float) : bool := SFltb (S754_zero false) x.

(** ** Paths, images, videos and the file system *)

Abbreviation path := (list string).

(** [os.path.join(d, name)], [os.path.basename] and [os.path.dirname]. *)
Definition path_join (d : path) (name : string) : path := d ++ [name].
Definition basename (p : path) : string := List.last p "".
Definition dirname (p : path) : path := removelast p.

(** Pixel data is kept symbolic: where it came from and which OpenCV
    operations it went through. *)
Inductive pixels :=
  | Source (id : nat)
  | Gray (p : pixels)
  | Resized (lanczos4 : bool) (w h : positive) (p : pixels)
  | Enhanced (p : pixels)
  | Normalized (p : pixels)
  | Composite (base replacement : pixels).

(** A decoded picture: [shape[0]], [shape[1]] and the pixel data; a
    picture has at least one row and one column. *)
Record image := Img { im_height : positive; im_width : positive; im_data : pixels }.

Global Instance image_inhabited : Inhabited image := populate (Img 1 1 (Source 0)).

(** What [cv2.VideoCapture] sees in a container: the properties it
    reports and the frames successive [cap.read()] calls deliver. *)
Record video := Vid {
  video_fps : float;        (* CAP_PROP_FPS *)
  total_frames : Z;         (* int(CAP_PROP_FRAME_COUNT) *)
  video_width : Z;
  video_height : Z;
  frames : list image
}.

Inductive content :=
  | Image (im : image)
  | Video (v : video)
  | Encoded (fps : float) (written : list image)   (* output of cv2.VideoWriter *)
  | Blob.

Inductive node :=
  | Dir
  | File (c : content).

Abbreviation filesystem := (gmap path node).

Definition path_exists (fs : filesystem) (p : path) : bool :=
  match fs !! p with Some _ => true | None => false end.

Definition is_file (fs : filesystem) (p : path) : bool :=
  match fs !! p with Some (File _) => true | _ => false end.

Definition is_dir (fs : filesystem) (p : path) : bool :=
  match fs !! p with Some Dir => true | _ => false end.

(** [cv2.imread]: [None] unless the path holds a decodable picture. *)
Definition imread (fs : filesystem) (p : path) : option image :=
  match fs !! p with Some (File (Image im)) => Some im | _ => None end.

(** Can a file be created or replaced at [p]? Not where a directory
    stands, and not in a directory that does not exist. *)
Definition can_create (fs : filesystem) (p : path) : bool :=
  match p with
  | [] => false
  | _ =>
      negb (is_dir fs p)
      && match dirname p with [] => true | d => is_dir fs d end
  end.

(** [cv2.imwrite]: where the file cannot be created it returns [False],
    which none of its callers looks at. *)
Definition imwrite (fs : filesystem) (p : path) (im : image) : filesystem :=
  if can_create fs p then <[p := File (Image im)]> fs else fs.

(** ** file_utils.py *)

(** [Path(path).mkdir(parents=True, exist_ok=True)]: walks the components
    from the top, creating what is missing; a regular file in the way
    raises, FileExistsError at the path itself and NotADirectoryError
    above it. *)
Fixpoint mkdir_parents (above : path) (below : list string) (fs : filesystem)
  : result unit * filesystem :=
  match below with
  | [] => (Ok tt, fs)
  | c :: below' =>
      let q := above ++ [c] in
      match fs !! q with
      | Some (File _) =>
          (Raise (match below' with [] => FileExistsError | _ => NotADirectoryError end), fs)
      | Some Dir => mkdir_parents q below' fs
      | None => mkdir_parents q below' (<[q := Dir]> fs)
      end
  end.

Definition ensure_directory (p : path) (fs : filesystem) : result unit * filesystem :=
  mkdir_parents [] p fs.

(** [shutil.rmtree(directory, ignore_errors)]: deletes the directory and
    everything below it.  Called on something that is not a directory it
    fails, silently when [ignore_errors] holds. *)
Definition rmtree (directory : path) (ignore_errors : bool) (fs : filesystem)
  : result unit * filesystem :=
  match fs !! directory with
  | Some Dir => (Ok tt, filter (λ kv, ¬ directory `prefix_of` kv.1) fs)
  | Some (File _) => if ignore_errors then (Ok tt, fs) else (Raise NotADirectoryError, fs)
  | None => if ignore_errors then (Ok tt, fs) else (Raise FileNotFoundError, fs)
  end.

Definition remove_directory (directory : path) (ignore_errors : bool) (fs : filesystem)
  : result unit * filesystem :=
  if path_exists fs directory then rmtree directory ignore_errors fs
  else (Ok tt, fs).

(** [os.remove] *)
Definition os_remove (p : path) (fs : filesystem) : result unit * filesystem :=
  match fs !! p with
  | Some (File _) => (Ok tt, delete p fs)
  | Some Dir => (Raise IsADirectoryError, fs)
  | None => (Raise FileNotFoundError, fs)
  end.

(** [safe_copy(src, dst)] with the default [overwrite=False]; the parent
    of a fresh destination is created first, outside the [try]. *)
Definition safe_copy (src dst : path) (fs : filesystem) : result bool * filesystem :=
  match fs !! src with
  | Some (File c) =>
      if path_exists fs dst then (Ok false, fs)
      else
        match ensure_directory (dirname dst) fs with
        | (Ok _, fs1) => (Ok true, <[dst := File c]> fs1)
        | (Raise e, fs1) => (Raise e, fs1)
        end
  | _ => (Ok false, fs)
  end.

(** [safe_move(src, dst)] with the default [overwrite=False]; the parent
    of a fresh destination is created first, outside the [try]. *)
Definition safe_move (src dst : path) (fs : filesystem) : result bool * filesystem :=
  match fs !! src with
  | Some (File c) =>
      if path_exists fs dst then (Ok false, fs)
      else
        match ensure_directory (dirname dst) fs with
        | (Ok _, fs1) => (Ok true, <[dst := File c]> (delete src fs1))
        | (Raise e, fs1) => (Raise e, fs1)
        end
  | _ => (Ok false, fs)
  end.

(** [sorted(f for f in Path(d).iterdir() if f.is_file())]: the regular
    files directly inside [d], by name. *)
Definition entry_in (d : path) (kv : path * node) : option string :=
  match kv.2 with
  | File _ =>
      if decide (kv.1 ≠ [] ∧ dirname kv.1 = d) then Some (basename kv.1) else None
  | Dir => None
  end.

Definition sorted_files (fs : filesystem) (d : path) : list path :=
  path_join d <$> merge_sort String.le (omap (entry_in d) (map_to_list fs)).

(** ** The world outside the manager

    The remote service is described by the answers it is going to give;
    [received] collects what has been uploaded to it. *)

(** The statuses that end [wait_for_task_completion]; 'completed' may
    carry the length of a 'replaced_frames' entry. *)
Inductive final_status :=
  | Completed (replaced_frames : option nat)
  | Failed
  | Canceled.

Record upload := Upload {
  up_task : string;
  up_file : path;
  up_index : nat;         (* frame_index *)
  up_total : nat          (* total_frames *)
}.

Record remote := Remote {
  api_status : result bool;            (* GET /status: is 'status' equal to 'ok'? *)
  submit_answer : result (option string);  (* 'task_id' of the answer, if any *)
  upload_fails_at : option nat;        (* the upload that the transport rejects *)
  pending_polls : nat;                 (* answers 'queued'/'running' before the last one *)
  last_poll : result final_status;
  cancel_answer : result unit;
  received : list upload;
  canceled_tasks : list string;
  session_open : bool
}.

Record world := World {
  fs : filesystem;
  clock : nat;             (* readings of time.time() *)
  entropy : nat;           (* source of uuid.uuid4() *)
  pool_schedule : list nat;  (* which futures of a thread pool finish first *)
  net : remote
}.

Definition with_fs (f : filesystem) (w : world) : world :=
  World f (clock w) (entropy w) (pool_schedule w) (net w).
Definition with_net (r : remote) (w : world) : world :=
  World (fs w) (clock w) (entropy w) (pool_schedule w) r.

(** Computations over the world that may raise. A raised exception keeps
    the effects performed so far. *)
Definition W (A : Type) : Type := world → result A * world.

Global Instance W_ret : MRet W := λ A a w, (Ok a, w).
Global Instance W_bind : MBind W := λ A B k m w,
  match m w with
  | (Ok a, w') => k a w'
  | (Raise e, w') => (Raise e, w')
  end.

Definition raise {A} (e : exn) : W A := λ w, (Raise e, w).

Definition on_fs {A} (f : filesystem → result A * filesystem) : W A := λ w,
  let '(r, fs') := f (fs w) in (r, with_fs fs' w).

Definition read_fs {A} (f : filesystem → A) : W A := λ w, (Ok (f (fs w)), w).

Definition time_time : W nat := λ w,
  (Ok (clock w), World (fs w) (S (clock w)) (entropy w) (pool_schedule w) (net w)).

(** [str(uuid.uuid4())]: successive calls give different identifiers. *)
Definition zfill (n : nat) (s : string) : string :=
  String.concat "" (replicate (n - String.length s) "0") +:+ s.

Definition uuid4 : W string := λ w,
  (Ok (zfill 8 (pretty (entropy w)) +:+ "-0000-4000-8000-000000000000"),
   World (fs w) (clock w) (S (entropy w)) (pool_schedule w) (net w)).

(** ** video/processor.py *)

(** A [VideoProcessor] and the OpenCV it runs on. What OpenCV makes of
    a file or of a frame rate depends on its build and its codecs:
    [decoder] tells how [cv2.VideoCapture] sees a file that is not a
    video container (a still picture usually opens as a short video,
    other files do not open), [encoder_accepts] at which rates
    [cv2.VideoWriter] opens with the codec 'mp4v'. *)
Record VideoProcessor := {
  temp_dir : path;
  output_dir : path;
  max_workers : Z;
  decoder : content → option video;
  encoder_accepts : float → bool
}.

Definition Qltb (a b : Q) : bool := negb (Qle_bool b a).

(** [f"frame_{extracted_count:06d}.png"] *)
Definition frame_filename (extracted_count : Z) : string :=
  "frame_" +:+ zfill 6 (pretty extracted_count) +:+ ".png".

Record extraction := Extraction {
  ex_paths : list path;      (* frame_paths *)
  ex_picked : list Z;        (* ghost: value of frame_count at every frame that was saved *)
  ex_reads : Z               (* ghost: number of frames cap.read() has delivered *)
}.

Definition cap_reached (max_frames : option Z) (extracted_count : Z) : bool :=
  match max_frames with
  | Some m => bool_decide (m ≤ extracted_count)
  | None => false
  end.

(** The progress line divides by [total_frames]. *)
Definition progress_line_raises (frame_count total_frames : Z) : bool :=
  bool_decide ((frame_count mod 100 = 0 ∨ frame_count = total_frames) ∧ total_frames = 0).

(** The [while True] loop of [extract_frames]; [pending] are the frames
    [cap.read()] still has to deliver. *)
Fixpoint extract_loop (dir : path) (extract_interval : Z) (max_frames : option Z)
    (total : Z) (pending : list image)
    (frame_count extracted_count : Z) (acc : extraction) (fs : filesystem)
  : result extraction * filesystem :=
  match pending with
  | [] => (Ok acc, fs)
  | frame :: pending' =>
      let reads := ex_reads acc + 1 in
      if decide (extract_interval = 0) then (Raise ZeroDivisionError, fs)
      else if decide (frame_count mod extract_interval = 0) then
        let frame_path := path_join dir (frame_filename extracted_count) in
        let fs := imwrite fs frame_path frame in
        let acc := Extraction (ex_paths acc ++ [frame_path])
                              (ex_picked acc ++ [frame_count]) reads in
        let extracted_count := extracted_count + 1 in
        if cap_reached max_frames extracted_count then (Ok acc, fs)
        else if progress_line_raises (frame_count + 1) total
             then (Raise ZeroDivisionError, fs)
        else extract_loop dir extract_interval max_frames total pending'
                          (frame_count + 1) extracted_count acc fs
      else
        let acc := Extraction (ex_paths acc) (ex_picked acc) reads in
        if progress_line_raises (frame_count + 1) total
        then (Raise ZeroDivisionError, fs)
        else extract_loop dir extract_interval max_frames total pending'
                          (frame_count + 1) extracted_count acc fs
  end.

(** [extract_interval] as computed before the loop:
    [int(video_fps / frame_rate)] when [frame_rate < video_fps]. A rate
    given as an int stands for the float of the same value. *)
Definition extract_interval_of (fps : float) (frame_rate : option float) : result Z :=
  match frame_rate with
  | Some r =>
      if SFltb r fps then
        quotient ← float_div fps r;
        int_of_float quotient
      else Ok 1
  | None => Ok 1
  end.

(** [total_frames_to_extract], the count announced in the log. *)
Definition total_frames_to_extract (total : Z) (max_frames : option Z) : Z :=
  match max_frames with
  | Some m => if bool_decide (m < total) then Z.min m total else total
  | None => total
  end.

(** [cv2.VideoCapture(video_path)] and the [isOpened] test. *)
Definition capture_of (vp : VideoProcessor) (c : content) : option video :=
  match c with
  | Video v => Some v
  | _ => decoder vp c
  end.

Definition open_video (vp : VideoProcessor) (video_path : path) : W video := λ w,
  match fs w !! video_path with
  | Some (File c) =>
      match capture_of vp c with
      | Some v => (Ok v, w)
      | None => (Raise ValueError, w)
      end
  | _ => (Raise ValueError, w)
  end.

Definition extract_frames_full (vp : VideoProcessor) (video_path : path)
    (out : option path) (frame_rate : option float) (max_frames : option Z)
  : W extraction :=
  _ ← time_time;
  present ← read_fs (λ f, path_exists f video_path);
  if negb present then raise FileNotFoundError else
  dir ← match out with
        | Some d => mret d
        | None => timestamp ← time_time;
                  mret (path_join (temp_dir vp) ("frames_" +:+ pretty timestamp))
        end;
  _ ← on_fs (ensure_directory dir);
  cap ← open_video vp video_path;
  extract_interval ← (λ w, (extract_interval_of (video_fps cap) frame_rate, w));
  ex ← on_fs (extract_loop dir extract_interval max_frames (total_frames cap)
                (frames cap) 0 0 (Extraction [] [] 0));
  _ ← time_time;
  mret ex.

Definition extract_frames (vp : VideoProcessor) (video_path : path)
    (out : option path) (frame_rate : option float) (max_frames : option Z)
  : W (list path) :=
  ex ← extract_frames_full vp video_path out frame_rate max_frames;
  mret (ex_paths ex).

(** *** preprocess_frames *)

Record preprocess_config := {
  resize : option (Z * Z);          (* (width, height) *)
  normalize : bool;
  grayscale : bool;
  enhance_features : bool;
  preserve_details : bool
}.

(** [cv2.resize(frame, (width, height), interpolation)] to a size that
    has a width and a height. *)
Definition cv2_resize (lanczos4 : bool) (width height : positive) (im : image) : image :=
  Img height width (Resized lanczos4 width height (im_data im)).

(** [cv2.resize(frame, resize)] with the size of the configuration: a
    width or a height that is not positive makes OpenCV raise. *)
Definition resize_to (lanczos4 : bool) (size : Z * Z) (im : image) : result image :=
  match size with
  | (Z.pos width, Z.pos height) => Ok (cv2_resize lanczos4 width height im)
  | _ => Raise Cv2Error
  end.

(** The picture [_preprocess_single_frame] saves for a frame it could read. *)
Definition preprocessed (cfg : preprocess_config) (frame : image) : result image :=
  let frame := if grayscale cfg
               then Img (im_height frame) (im_width frame) (Gray (im_data frame))
               else frame in
  frame ← match resize cfg with
          | Some size => resize_to (preserve_details cfg) size frame
          | None => Ok frame
          end;
  let frame := if enhance_features cfg && negb (grayscale cfg)
               then Img (im_height frame) (im_width frame) (Enhanced (im_data frame))
               else frame in
  Ok (if normalize cfg
      then Img (im_height frame) (im_width frame) (Normalized (im_data frame))
      else frame).

(** [_preprocess_single_frame]: an unreadable frame makes the first OpenCV
    call on it raise. *)
Definition _preprocess_single_frame (frame_path dir : path) (cfg : preprocess_config)
  : W path := λ w,
  match imread (fs w) frame_path with
  | None => (Raise Cv2Error, w)
  | Some frame =>
      match preprocessed cfg frame with
      | Raise e => (Raise e, w)
      | Ok picture =>
          let output_path := path_join dir (basename frame_path) in
          (Ok output_path, with_fs (imwrite (fs w) output_path picture) w)
      end
  end.

(** The order in which [as_completed] hands back the [n] futures: the
    indices named by [priority] first, the others after them. Every
    permutation of [0..n-1] arises, from itself as [priority]. *)
Definition completion_order (priority : list nat) (n : nat) : list nat :=
  let first := remove_dups (filter (λ i, (i < n)%nat) priority) in
  first ++ filter (λ i, i ∉ first) (seq 0 n).

(** The collecting loop: a task that raised is logged and left out. *)
Fixpoint collect_completed (frame_paths : list path) (dir : path) (cfg : preprocess_config)
    (order : list nat) (processed_paths : list path) (w : world)
  : list path * world :=
  match order with
  | [] => (processed_paths, w)
  | i :: order' =>
      match frame_paths !! i with
      | None => collect_completed frame_paths dir cfg order' processed_paths w
      | Some frame_path =>
          match _preprocess_single_frame frame_path dir cfg w with
          | (Ok processed_path, w') =>
              collect_completed frame_paths dir cfg order' (processed_paths ++ [processed_path]) w'
          | (Raise _, w') =>
              collect_completed frame_paths dir cfg order' processed_paths w'
          end
      end
  end.

(** [preprocess_frames] *)
Definition preprocess_frames (vp : VideoProcessor)
    (frame_paths : list path) (out : option path) (cfg : preprocess_config)
  : W (list path) :=
  _ ← time_time;
  dir ← match out with
        | Some d => mret d
        | None => timestamp ← time_time;
                  mret (path_join (temp_dir vp) ("processed_frames_" +:+ pretty timestamp))
        end;
  _ ← on_fs (ensure_directory dir);
  (* ThreadPoolExecutor(max_workers=self.max_workers) *)
  if bool_decide (max_workers vp ≤ 0) then raise ValueError else
  processed_paths ← (λ w,
     let '(ps, w') := collect_completed frame_paths dir cfg
                        (completion_order (pool_schedule w) (length frame_paths)) [] w in
     (Ok ps, w'));
  _ ← time_time;
  mret processed_paths.

(** *** frames_to_video *)

(** The writing loop: an unreadable frame is skipped, a frame of another
    size is resized to the size of the writer. *)
Fixpoint write_frames (fs : filesystem) (height width : positive) (frame_paths : list path)
  : list image :=
  match frame_paths with
  | [] => []
  | frame_path :: rest =>
      match imread fs frame_path with
      | None => write_frames fs height width rest
      | Some frame =>
          let frame :=
            if bool_decide (im_height frame ≠ height ∨ im_width frame ≠ width)
            then cv2_resize true width height frame
            else frame in
          frame :: write_frames fs height width rest
      end
  end.

(** [cv2.VideoWriter(output_path, fourcc, fps, (width, height))] opens,
    and creates the file, when the rate is above 0 and the encoder takes
    it, and the file can be created. *)
Definition writer_opens (vp : VideoProcessor) (fs : filesystem) (output_path : path)
    (fps : float) : bool :=
  float_positive fps && encoder_accepts vp fps && can_create fs output_path.

(** With a writer that did not open, [out.write] and [out.release] do
    nothing: there is no [isOpened] test, and the path is returned all
    the same. *)
Definition frames_to_video (vp : VideoProcessor) (frame_paths : list path)
    (output_path : path) (fps : float) : W path :=
  _ ← time_time;
  match frame_paths with
  | [] => raise ValueError
  | first_path :: _ =>
      _ ← on_fs (ensure_directory (dirname output_path));
      first ← read_fs (λ f, imread f first_path);
      match first with
      | None => raise ValueError
      | Some first_frame =>
          let height := im_height first_frame in
          let width := im_width first_frame in
          _ ← on_fs (λ f,
                 if writer_opens vp f output_path fps then
                   let opened := <[output_path := File (Encoded fps [])]> f in
                   (Ok tt, <[output_path :=
                              File (Encoded fps (write_frames opened height width frame_paths))]>
                             opened)
                 else (Ok tt, f));
          _ ← time_time;
          mret output_path
      end
  end.

(** *** get_video_info *)

Record video_info := {
  info_width : Z;
  info_height : Z;
  info_fps : float;
  info_frame_count : Z
}.

Definition get_video_info (vp : VideoProcessor) (video_path : path) : W video_info :=
  present ← read_fs (λ f, path_exists f video_path);
  if negb present then raise FileNotFoundError else
  cap ← open_video vp video_path;
  mret {| info_width := video_width cap; info_height := video_height cap;
          info_fps := video_fps cap; info_frame_count := total_frames cap |}.

(** [_decode_fourcc]: the four characters [chr((fourcc >> 8 * i) & 0xFF)]. *)
Definition fourcc_char (fourcc : Z) (i : Z) : Ascii.ascii :=
  Ascii.ascii_of_N (Z.to_N (Z.land (Z.shiftr fourcc (8 * i)) 255)).

Definition _decode_fourcc (fourcc : Z) : string :=
  String (fourcc_char fourcc 0) (String (fourcc_char fourcc 1)
    (String (fourcc_char fourcc 2) (String (fourcc_char fourcc 3) EmptyString))).

(** ** workflow/replacement_processor.py *)

Inductive category := Person | Background | Product.

Definition category_name (c : category) : string :=
  match c with Person => "person" | Background => "background" | Product => "product" end.

Record category_config := {
  enabled : bool;
  replacement_image : option path
}.

Record replacement_config := {
  person : category_config;
  background : category_config;
  product : category_config
}.

Definition category_config_of (rc : replacement_config) (c : category) : category_config :=
  match c with Person => person rc | Background => background rc | Product => product rc end.

Definition replacement_types (rc : replacement_config) : list category :=
  filter (λ c, enabled (category_config_of rc c) = true) [Person; Background; Product].

Definition temp_name (c : category) (frame_name : string) : string :=
  "temp_" +:+ category_name c +:+ "_" +:+ frame_name.

(** One round of detect / mask / apply for a category: the path of the
    picture the next round works on. *)
Definition replace_category (rc : replacement_config) (dir : path) (frame_name : string)
    (c : category) (current_image : path) (f : filesystem) : path * filesystem :=
  match imread f current_image with
  | None => (current_image, f)
  | Some picture =>
      let temp_output := path_join dir (temp_name c frame_name) in
      match ensure_directory (dirname temp_output) f with
      | (Raise _, f1) => (current_image, f1)
      | (Ok _, f1) =>
          let result :=
            match replacement_image (category_config_of rc c) with
            | Some ref =>
                match imread f1 ref with
                | Some other =>
                    Img (im_height picture) (im_width picture)
                        (Composite (im_data picture)
                           (Resized false (im_width picture) (im_height picture) (im_data other)))
                | None => picture
                end
            | None => picture
            end in
          (temp_output, imwrite f1 temp_output result)
      end
  end.

Fixpoint replace_categories (rc : replacement_config) (dir : path) (frame_name : string)
    (cs : list category) (current_image : path) (f : filesystem) : path * filesystem :=
  match cs with
  | [] => (current_image, f)
  | c :: cs' =>
      let '(current_image, f) := replace_category rc dir frame_name c current_image f in
      replace_categories rc dir frame_name cs' current_image f
  end.

Fixpoint remove_temps (dir : path) (frame_name : string) (output_path : path)
    (cs : list category) (f : filesystem) : filesystem :=
  match cs with
  | [] => f
  | c :: cs' =>
      let temp_output := path_join dir (temp_name c frame_name) in
      let f := if path_exists f temp_output && negb (bool_decide (temp_output = output_path))
               then (os_remove temp_output f).2 else f in
      remove_temps dir frame_name output_path cs' f
  end.

Definition process_frame (frame_path : path) (rc : replacement_config) (dir : path)
  : W path :=
  _ ← on_fs (ensure_directory dir);
  let frame_name := basename frame_path in
  let output_path := path_join dir frame_name in
  match replacement_types rc with
  | [] =>
      _ ← on_fs (safe_copy frame_path output_path);
      mret output_path
  | types =>
      current_image ← on_fs (λ f,
             let '(current_image, f) := replace_categories rc dir frame_name types frame_path f in
             (Ok current_image, f));
      _ ← on_fs (safe_copy current_image output_path);
      _ ← on_fs (λ f, (Ok tt, remove_temps dir frame_name output_path types f));
      mret output_path
  end.

Fixpoint process_frames_batch_from (frame_paths : list path) (rc : replacement_config)
    (dir : path) (processed_paths : list path) : W (list path) :=
  match frame_paths with
  | [] => mret processed_paths
  | frame_path :: rest =>
      processed_path ← process_frame frame_path rc dir;
      process_frames_batch_from rest rc dir (processed_paths ++ [processed_path])
  end.

Definition process_frames_batch (frame_paths : list path) (rc : replacement_config)
    (dir : path) : W (list path) :=
  process_frames_batch_from frame_paths rc dir [].

(** ** api/client.py *)

Definition on_net {A} (f : remote → result A * remote) : W A := λ w,
  let '(r, n) := f (net w) in (r, with_net n w).

Definition set_received (l : list upload) (r : remote) : remote :=
  Remote (api_status r) (submit_answer r) (upload_fails_at r) (pending_polls r)
         (last_poll r) (cancel_answer r) l (canceled_tasks r) (session_open r).
Definition set_pending_polls (n : nat) (r : remote) : remote :=
  Remote (api_status r) (submit_answer r) (upload_fails_at r) n
         (last_poll r) (cancel_answer r) (received r) (canceled_tasks r) (session_open r).
Definition set_canceled_tasks (l : list string) (r : remote) : remote :=
  Remote (api_status r) (submit_answer r) (upload_fails_at r) (pending_polls r)
         (last_poll r) (cancel_answer r) (received r) l (session_open r).
Definition set_session_open (b : bool) (r : remote) : remote :=
  Remote (api_status r) (submit_answer r) (upload_fails_at r) (pending_polls r)
         (last_poll r) (cancel_answer r) (received r) (canceled_tasks r) b.

(** The second [test_connection] of the class, the one in force. *)
Definition test_connection : W bool := on_net (λ r,
  match api_status r with
  | Ok is_connected => (Ok is_connected, r)
  | Raise _ => (Ok false, r)
  end).

(** A Python string used as a condition. *)
Definition truthy (o : option string) : bool :=
  match o with Some s => negb (bool_decide (s = "")) | None => false end.

(** [execute_workflow(workflow_data, wait_for_completion=False)]: the
    answer's ['task_id']. *)
Definition execute_workflow : W (option string) := on_net (λ r,
  match submit_answer r with
  | Ok task_id => if truthy task_id then (Ok task_id, r) else (Raise ValueError, r)
  | Raise e => (Raise e, r)
  end).

(** [execute_replacement_task] hands the answer back unchecked. *)
Definition execute_replacement_task : W (option string) := on_net (λ r,
  (submit_answer r, r)).

(** The second [upload_video_frames] of the class, the one in force. *)
Fixpoint upload_each (task_id : string) (total : nat) (i : nat) (frame_files : list path)
    (r : remote) : result unit * remote :=
  match frame_files with
  | [] => (Ok tt, r)
  | frame_file :: rest =>
      if bool_decide (upload_fails_at r = Some i) then (Raise HTTPError, r)
      else upload_each task_id total (S i) rest
             (set_received (received r ++ [Upload task_id frame_file i total]) r)
  end.

Definition upload_video_frames (frames_dir : path) (task_id : string) : W nat := λ w,
  if negb (is_dir (fs w) frames_dir) then (Raise FileNotFoundError, w) else
  let frame_files := sorted_files (fs w) frames_dir in
  match frame_files with
  | [] => (Raise ValueError, w)
  | _ =>
      let '(r, n) := upload_each task_id (length frame_files) 0 frame_files (net w) in
      match r with
      | Ok _ => (Ok (length frame_files), with_net n w)
      | Raise e => (Raise e, with_net n w)
      end
  end.

(** [wait_for_task_completion]: the service answers a non-final status
    [pending_polls] times, then [last_poll] (a final status, or a
    transport error). *)
Fixpoint poll_until_done (pending : nat) (r : remote) : result (option nat) * remote :=
  match pending with
  | S pending' => poll_until_done pending' (set_pending_polls pending' r)
  | O =>
      match last_poll r with
      | Ok (Completed replaced_frames) => (Ok replaced_frames, r)
      | Ok Failed => (Raise RuntimeError, r)
      | Ok Canceled => (Raise RuntimeError, r)
      | Raise e => (Raise e, r)
      end
  end.

Definition wait_for_task_completion (task_id : string) : W (option nat) :=
  on_net (λ r, poll_until_done (pending_polls r) r).

Definition cancel_task (task_id : string) : W unit := on_net (λ r,
  match cancel_answer r with
  | Ok _ => (Ok tt, set_canceled_tasks (canceled_tasks r ++ [task_id]) r)
  | Raise e => (Raise e, r)
  end).

(** [close]: closes the HTTP session if there is one. *)
Definition client_close : W unit := on_net (λ r, (Ok tt, set_session_open false r)).

(** ** workflow/manager.py *)

Inductive status :=
  | STATUS_IDLE
  | STATUS_PREPARING
  | STATUS_EXTRACTING_FRAMES
  | STATUS_PREPROCESSING_FRAMES
  | STATUS_LOCAL_REPLACEMENT      (* the literal "local_replacement_preprocessing" *)
  | STATUS_UPLOADING_FRAMES
  | STATUS_EXECUTING_WORKFLOW
  | STATUS_DOWNLOADING_RESULTS
  | STATUS_COMPOSING_VIDEO
  | STATUS_COMPLETED
  | STATUS_FAILED
  | STATUS_CANCELED.

Global Instance status_eq_dec : EqDecision status.
Proof. solve_decision. Defined.

(** The attributes of a [WorkflowManager] that make up its session. *)
Record manager := Manager {
  workflow_id : option string;
  status_of : status;
  progress : Q;
  start_time : option nat;
  end_time : option nat;
  working_dir : option path;
  input_video_path : option path;
  output_video_path : option path;
  frame_paths : list path;
  processed_frame_paths : list path;
  task_id : option string
}.

Definition set_workflow_id v (m : manager) :=
  Manager v (status_of m) (progress m) (start_time m) (end_time m) (working_dir m)
    (input_video_path m) (output_video_path m) (frame_paths m) (processed_frame_paths m) (task_id m).
Definition set_status v (m : manager) :=
  Manager (workflow_id m) v (progress m) (start_time m) (end_time m) (working_dir m)
    (input_video_path m) (output_video_path m) (frame_paths m) (processed_frame_paths m) (task_id m).
Definition set_progress v (m : manager) :=
  Manager (workflow_id m) (status_of m) v (start_time m) (end_time m) (working_dir m)
    (input_video_path m) (output_video_path m) (frame_paths m) (processed_frame_paths m) (task_id m).
Definition set_start_time v (m : manager) :=
  Manager (workflow_id m) (status_of m) (progress m) v (end_time m) (working_dir m)
    (input_video_path m) (output_video_path m) (frame_paths m) (processed_frame_paths m) (task_id m).
Definition set_end_time v (m : manager) :=
  Manager (workflow_id m) (status_of m) (progress m) (start_time m) v (working_dir m)
    (input_video_path m) (output_video_path m) (frame_paths m) (processed_frame_paths m) (task_id m).
Definition set_working_dir v (m : manager) :=
  Manager (workflow_id m) (status_of m) (progress m) (start_time m) (end_time m) v
    (input_video_path m) (output_video_path m) (frame_paths m) (processed_frame_paths m) (task_id m).
Definition set_input_video_path v (m : manager) :=
  Manager (workflow_id m) (status_of m) (progress m) (start_time m) (end_time m) (working_dir m)
    v (output_video_path m) (frame_paths m) (processed_frame_paths m) (task_id m).
Definition set_output_video_path v (m : manager) :=
  Manager (workflow_id m) (status_of m) (progress m) (start_time m) (end_time m) (working_dir m)
    (input_video_path m) v (frame_paths m) (processed_frame_paths m) (task_id m).
Definition set_frame_paths v (m : manager) :=
  Manager (workflow_id m) (status_of m) (progress m) (start_time m) (end_time m) (working_dir m)
    (input_video_path m) (output_video_path m) v (processed_frame_paths m) (task_id m).
Definition set_processed_frame_paths v (m : manager) :=
  Manager (workflow_id m) (status_of m) (progress m) (start_time m) (end_time m) (working_dir m)
    (input_video_path m) (output_video_path m) (frame_paths m) v (task_id m).
Definition set_task_id v (m : manager) :=
  Manager (workflow_id m) (status_of m) (progress m) (start_time m) (end_time m) (working_dir m)
    (input_video_path m) (output_video_path m) (frame_paths m) (processed_frame_paths m) v.

(** The state [__init__] leaves. *)
Definition fresh_manager : manager :=
  Manager None STATUS_IDLE 0%Q None None None None None [] [] None.

(** Every assignment to an attribute is journalled with the state it
    leaves: these are the states a [get_status()] from elsewhere can see. *)
Inductive field :=
  | F_workflow_id | F_status | F_progress | F_start_time | F_end_time
  | F_working_dir | F_input_video_path | F_output_video_path
  | F_frame_paths | F_processed_frame_paths | F_task_id.

Global Instance field_eq_dec : EqDecision field.
Proof. solve_decision. Defined.

Record event := Assigned { ev_field : field; ev_after : manager }.

Record outcome (A : Type) := Outcome {
  res : result A;
  mgr_after : manager;
  world_after : world;
  journal : list event
}.
Arguments Outcome {A} _ _ _ _.
Arguments res {A} _.
Arguments mgr_after {A} _.
Arguments world_after {A} _.
Arguments journal {A} _.

(** Methods of the manager. *)
Definition M (A : Type) : Type := manager → world → outcome A.

Global Instance M_ret : MRet M := λ A a m w, Outcome (Ok a) m w [].
Global Instance M_bind : MBind M := λ A B k c m w,
  let o := c m w in
  match res o with
  | Ok a =>
      let o' := k a (mgr_after o) (world_after o) in
      Outcome (res o') (mgr_after o') (world_after o') (journal o ++ journal o')
  | Raise e => Outcome (Raise e) (mgr_after o) (world_after o) (journal o)
  end.

Definition raiseM {A} (e : exn) : M A := λ m w, Outcome (Raise e) m w [].

Definition lift {A} (c : W A) : M A := λ m w,
  let '(r, w') := c w in Outcome r m w' [].

Definition self : M manager := λ m w, Outcome (Ok m) m w [].

Definition assign (f : field) (upd : manager → manager) : M unit := λ m w,
  Outcome (Ok tt) (upd m) w [Assigned f (upd m)].

(** [try: c  except Exception as e: handler e] *)
Definition try_except {A} (c : M A) (handler : exn → M A) : M A := λ m w,
  let o := c m w in
  match res o with
  | Ok a => o
  | Raise e =>
      let o' := handler e (mgr_after o) (world_after o) in
      Outcome (res o') (mgr_after o') (world_after o') (journal o ++ journal o')
  end.

(** [max(a, b)] and [min(a, b)] of Python on two floats. *)
Definition py_max (a b : Q) : Q := if Qltb a b then b else a.
Definition py_min (a b : Q) : Q := if Qltb b a then b else a.

Definition _update_status (st : status) : M unit := assign F_status (set_status st).

Definition _update_progress (p : Q) : M unit :=
  assign F_progress (set_progress (py_min 100 (py_max 0 p))).

Definition _set_failed_state : M unit :=
  _ ← assign F_status (set_status STATUS_FAILED);
  now ← lift time_time;
  assign F_end_time (set_end_time (Some now)).

Definition _reset_state : M unit :=
  _ ← assign F_workflow_id (set_workflow_id None);
  _ ← assign F_status (set_status STATUS_IDLE);
  _ ← assign F_progress (set_progress 0%Q);
  _ ← assign F_start_time (set_start_time None);
  _ ← assign F_end_time (set_end_time None);
  _ ← assign F_working_dir (set_working_dir None);
  _ ← assign F_input_video_path (set_input_video_path None);
  _ ← assign F_output_video_path (set_output_video_path None);
  _ ← assign F_frame_paths (set_frame_paths []);
  _ ← assign F_processed_frame_paths (set_processed_frame_paths []);
  assign F_task_id (set_task_id None).

Record workflow_config := {
  replacement : option replacement_config;
  frame_rate : option float;
  max_frames : option Z;
  preprocess : preprocess_config
}.

(** [has_replacement] of [_execute_workflow_steps]. *)
Definition has_replacement (cfg : workflow_config) : bool :=
  match replacement cfg with
  | Some rc => enabled (person rc) || enabled (background rc) || enabled (product rc)
  | None => false
  end.

Definition for_replacement (pc : preprocess_config) : preprocess_config :=
  {| resize := resize pc; normalize := normalize pc; grayscale := grayscale pc;
     enhance_features := true; preserve_details := true |}.

Definition the {A} (o : option A) (d : A) : A := default d o.

Definition _execute_workflow_steps (vp : VideoProcessor) (cfg : workflow_config) : M unit :=
  try_except
    (_ ← _update_status STATUS_PREPARING;
     me ← self;
     video_info ← lift (get_video_info vp (the (input_video_path me) []));
     (* 1. extract the frames *)
     _ ← _update_status STATUS_EXTRACTING_FRAMES;
     let frames_dir := path_join (the (working_dir me) []) "frames" in
     let rate := the (frame_rate cfg) (info_fps video_info) in
     extracted ← lift (extract_frames vp (the (input_video_path me) []) (Some frames_dir)
                         (Some rate) (max_frames cfg));
     _ ← assign F_frame_paths (set_frame_paths extracted);
     _ ← _update_progress 20;
     (* 2. preprocess them *)
     _ ← _update_status STATUS_PREPROCESSING_FRAMES;
     let processed_dir := path_join (the (working_dir me) []) "processed_frames" in
     let preprocess_config :=
       if has_replacement cfg then for_replacement (preprocess cfg) else preprocess cfg in
     processed ← lift (preprocess_frames vp extracted (Some processed_dir) preprocess_config);
     _ ← assign F_processed_frame_paths (set_processed_frame_paths processed);
     _ ← _update_progress 40;
     (* 3. local replacement, optional *)
     _ ← (if has_replacement cfg then
            _ ← _update_status STATUS_LOCAL_REPLACEMENT;
            let replaced_dir := path_join (the (working_dir me) []) "replaced_frames" in
            me ← self;
            local_replaced_paths ←
              lift (match replacement cfg with
                    | Some rc => process_frames_batch (processed_frame_paths me) rc replaced_dir
                    | None => mret []
                    end);
            assign F_processed_frame_paths (set_processed_frame_paths local_replaced_paths)
          else mret tt);
     (* the connection test *)
     connected ← lift test_connection;
     if negb connected then raiseM RuntimeError else
     (* 4. create the task and upload the frames *)
     _ ← _update_status STATUS_UPLOADING_FRAMES;
     task ← lift (if has_replacement cfg then execute_replacement_task else execute_workflow);
     _ ← assign F_task_id (set_task_id task);
     if negb (truthy task) then raiseM ValueError else
     _ ← lift (upload_video_frames processed_dir (the task ""));
     _ ← _update_progress 60;
     (* 5. wait for the remote workflow *)
     _ ← _update_status STATUS_EXECUTING_WORKFLOW;
     task_result ← lift (wait_for_task_completion (the task ""));
     _ ← _update_progress 80;
     (* 6. the results *)
     _ ← _update_status STATUS_DOWNLOADING_RESULTS;
     let results_dir := path_join (the (working_dir me) []) "results" in
     _ ← lift (on_fs (ensure_directory results_dir));
     me ← self;
     let result_frame_paths := processed_frame_paths me in
     _ ← _update_progress 90;
     (* 7. compose the video *)
     _ ← _update_status STATUS_COMPOSING_VIDEO;
     _ ← lift (on_fs (ensure_directory (dirname (the (output_video_path me) []))));
     _ ← lift (frames_to_video vp result_frame_paths (the (output_video_path me) []) rate);
     _ ← _update_progress 100;
     _ ← _update_status STATUS_COMPLETED;
     now ← lift time_time;
     assign F_end_time (set_end_time (Some now)))
    (λ e, _ ← _set_failed_state; raiseM e).

Definition dot : Ascii.ascii := Ascii.ascii_of_nat 46.

(** [os.path.splitext(name)[0]]: the name up to its last dot, unless only
    dots come before it. *)
Fixpoint rfind_dot (cs : list Ascii.ascii) (i : nat) (found : option nat) : option nat :=
  match cs with
  | [] => found
  | c :: cs' => rfind_dot cs' (S i) (if Ascii.eqb c dot then Some i else found)
  end.

Definition splitext_root (name : string) : string :=
  let cs := String.list_ascii_of_string name in
  match rfind_dot cs 0 None with
  | Some d =>
      if existsb (λ c, negb (Ascii.eqb c dot)) (take d cs)
      then String.string_of_list_ascii (take d cs)
      else name
  | None => name
  end.

(** What [start_workflow] hands back. *)
Record summary := {
  sum_workflow_id : option string;
  sum_status : status;
  sum_input_video : option path;
  sum_output_video : option path;
  sum_started_at : nat
}.

Definition start_workflow (vp : VideoProcessor) (input_video : path)
    (cfg : workflow_config) : M summary :=
  try_except
    (present ← lift (read_fs (λ f, path_exists f input_video));
     if negb present then raiseM FileNotFoundError else
     _ ← _reset_state;
     id ← lift uuid4;
     _ ← assign F_workflow_id (set_workflow_id (Some id));
     _ ← assign F_input_video_path (set_input_video_path (Some input_video));
     _ ← assign F_status (set_status STATUS_PREPARING);
     now ← lift time_time;
     _ ← assign F_start_time (set_start_time (Some now));
     timestamp ← lift time_time;
     let dir := path_join (temp_dir vp)
                  ("workflow_" +:+ pretty timestamp +:+ "_" +:+ String.substring 0 8 id) in
     _ ← assign F_working_dir (set_working_dir (Some dir));
     _ ← lift (on_fs (ensure_directory dir));
     let video_name := splitext_root (basename input_video) in
     _ ← assign F_output_video_path
           (set_output_video_path
              (Some (path_join (output_dir vp) (video_name +:+ "_replicated.mp4"))));
     _ ← _execute_workflow_steps vp cfg;
     me ← self;
     started_at ← lift time_time;
     mret {| sum_workflow_id := workflow_id me; sum_status := status_of me;
             sum_input_video := input_video_path me;
             sum_output_video := output_video_path me;
             sum_started_at := started_at |})
    (λ e, _ ← _set_failed_state; raiseM e).

(** [get_status] *)
Record status_info := {
  si_workflow_id : option string;
  si_status : status;
  si_progress : Q;
  si_input_video : option path;
  si_output_video : option path;
  si_task_id : option string;
  si_started_at : option nat;
  si_ended_at : option nat;
  si_duration : option Z
}.

(** A float used as a condition: [0.0] and [None] count as false. *)
Definition truthy_time (t : option nat) : bool :=
  match t with Some (S _) => true | _ => false end.

Definition get_status : M status_info :=
  me ← self;
  let info started ended duration :=
    {| si_workflow_id := workflow_id me; si_status := status_of me;
       si_progress := progress me; si_input_video := input_video_path me;
       si_output_video := output_video_path me; si_task_id := task_id me;
       si_started_at := started; si_ended_at := ended; si_duration := duration |} in
  if truthy_time (start_time me) then
    if truthy_time (end_time me) then
      mret (info (start_time me) (end_time me)
              (Some (Z.of_nat (the (end_time me) O) - Z.of_nat (the (start_time me) O))))
    else
      now ← lift time_time;
      mret (info (start_time me) None
              (Some (Z.of_nat now - Z.of_nat (the (start_time me) O))))
  else mret (info None None None).

(** [cancel_workflow] *)
Record cancel_result := {
  success : bool;
  canceled_workflow : option (option string)   (* the 'workflow_id' entry, if present *)
}.

Definition is_terminal (st : status) : bool :=
  bool_decide (st ∈ [STATUS_COMPLETED; STATUS_FAILED; STATUS_CANCELED]).

Definition cancel_workflow : M cancel_result :=
  me ← self;
  if is_terminal (status_of me)
  then mret {| success := false; canceled_workflow := None |}
  else
    try_except
      (_ ← assign F_status (set_status STATUS_CANCELED);
       now ← lift time_time;
       _ ← assign F_end_time (set_end_time (Some now));
       me ← self;
       _ ← (if truthy (task_id me)
            then try_except (lift (cancel_task (the (task_id me) ""))) (λ _, mret tt)
            else mret tt);
       mret {| success := true; canceled_workflow := Some (workflow_id me) |})
      (λ _, mret {| success := false; canceled_workflow := None |}).

(** [cleanup] *)
Definition truthy_path (o : option path) : bool :=
  match o with Some (_ :: _) => true | _ => false end.

Definition cleanup (keep_results : bool) : M unit :=
  _ ← lift client_close;
  me ← self;
  dir_there ← lift (read_fs (λ f, path_exists f (the (working_dir me) [])));
  _ ← (if truthy_path (working_dir me) && dir_there
       then lift (on_fs (remove_directory (the (working_dir me) []) true))
       else mret tt);
  out_there ← lift (read_fs (λ f, path_exists f (the (output_video_path me) [])));
  if negb keep_results && truthy_path (output_video_path me) && out_there
  then lift (on_fs (os_remove (the (output_video_path me) [])))
  else mret tt.

(** ** Notions used by the statements *)

(** [ceil(t / i)] on integers. *)
Definition ceil_div (t i : Z) : Z := (t + i - 1) / i.

(** The source positions [0, i, 2i, ...] of the first [n] frames kept. *)
Definition multiples (i : Z) (n : Z) : list Z :=
  (λ k, Z.of_nat k * i) <$> seq 0 (Z.to_nat n).

(** The names [frame_000000.png, frame_000001.png, ...] in [dir]. *)
Definition numbered_frames (dir : path) (n : Z) : list path :=
  (λ k, path_join dir (frame_filename (Z.of_nat k))) <$> seq 0 (Z.to_nat n).

(** The number of frames kept out of [available] under a cap. *)
Definition capped (max_frames : option Z) (available : Z) : Z :=
  match max_frames with
  | Some m => Z.min m available
  | None => available
  end.


(** The assignments to [status], in order. *)
Definition status_writes (j : list event) : list status :=
  omap (λ e, if decide (ev_field e = F_status) then Some (status_of (ev_after e)) else None) j.

(** The statuses of a session in the order of the pipeline, from the
    reset on; [replacing] tells whether the local replacement runs. *)
Definition pipeline (replacing : bool) : list status :=
  [STATUS_IDLE; STATUS_PREPARING; STATUS_PREPARING; STATUS_EXTRACTING_FRAMES;
   STATUS_PREPROCESSING_FRAMES]
  ++ (if replacing then [STATUS_LOCAL_REPLACEMENT] else [])
  ++ [STATUS_UPLOADING_FRAMES; STATUS_EXECUTING_WORKFLOW; STATUS_DOWNLOADING_RESULTS;
      STATUS_COMPOSING_VIDEO; STATUS_COMPLETED].

(** How often 'failed' is written by a call that raises after [n]
    statuses of the pipeline: once by the handler of [start_workflow],
    and once more by the handler of [_execute_workflow_steps] when that
    method had been entered. *)
Definition failed_writes (n : nat) : nat := if (n <=? 2)%nat then 1%nat else 2%nat.

(** Is [l] the whole pipeline when the call returned, and a proper part
    of it followed by the writes of 'failed' when it raised? *)
Definition in_pipeline_order (replacing returned : bool) (l : list status) : bool :=
  if returned then bool_decide (l = pipeline replacing)
  else existsb (λ n, bool_decide (l = take n (pipeline replacing)
                                      ++ replicate (failed_writes n) STATUS_FAILED))
               (seq 0 (length (pipeline replacing))).

(** The code of a character. *)
Definition byte_of (a : Ascii.ascii) : Z := Z.of_N (Ascii.N_of_ascii a).


(** The statuses the session went through. *)
Definition statuses (j : list event) : list status := (λ e, status_of (ev_after e)) <$> j.




(** The time stamps written to [end_time], in order. *)
Definition end_stamps (j : list event) : list nat :=
  omap (λ e, if decide (ev_field e = F_end_time) then end_time (ev_after e) else None) j.

(** The frame a composer input is resized to, if its size differs. *)
Definition fitted (height width : positive) (frame : image) : image :=
  if bool_decide (im_height frame ≠ height ∨ im_width frame ≠ width)
  then cv2_resize true width height frame
  else frame.

(** The first [n] files of an extraction at interval [i]: the file
    numbered [k] takes the frame at position [k * i]. *)
Definition saved_frames (dir : path) (frames : list image) (i n : Z) : list (path * image) :=
  (λ k, (path_join dir (frame_filename (Z.of_nat k)), frames !!! Z.to_nat (Z.of_nat k * i)))
    <$> seq 0 (Z.to_nat n).

(** The file system after [cv2.imwrite] of pictures at paths, one after
    the other. *)
Definition written_to (f : filesystem) (files : list (path * image)) : filesystem :=
  foldl (λ f file, imwrite f file.1 file.2) f files.

(** Does the configured resize, if any, have a width and a height? *)
Definition resize_ok (cfg : preprocess_config) : bool :=
  match resize cfg with
  | Some (Z.pos _, Z.pos _) | None => true
  | _ => false
  end.

(** Weakest preconditions for methods of the manager. *)
Definition wp {A} (c : M A) (m : manager) (w : world)
    (post : result A → manager → world → list event → Prop) : Prop :=
  post (res (c m w)) (mgr_after (c m w)) (world_after (c m w)) (journal (c m w)).





(** The output path [_preprocess_single_frame] gives the frame at index [i]. *)
Definition processed_path_of (frame_paths : list path) (dir : path) (i : nat) : option path :=
  (λ p, path_join dir (basename p)) <$> frame_paths !! i.

(** *** Sample data *)

(** An OpenCV that opens a still picture as a video of one frame at 25
    frames per second, and whose encoder takes every rate. *)
Definition still (c : content) : option video :=
  match c with
  | Image im => Some (Vid (float_of_Z 25) 1 (Z.pos (im_width im)) (Z.pos (im_height im)) [im])
  | _ => None
  end.

Definition sample_processor : VideoProcessor :=
  {| temp_dir := ["temp"]; output_dir := ["outputs"]; max_workers := 4;
     decoder := still; encoder_accepts := λ _, true |}.

Definition sample_frames (n : nat) : list image := (λ i, Img 240 320 (Source i)) <$> seq 0 n.

(** 30.0 *)
Definition fps30 : float := float_of_Z 30.

Definition sample_video (n : nat) : video :=
  Vid fps30 (Z.of_nat n) 320 240 (sample_frames n).

Definition sample_remote : remote :=
  Remote (Ok true) (Ok (Some "task-1")) None 2 (Ok (Completed None)) (Ok tt) [] [] true.

Definition unreachable_remote : remote :=
  Remote (Ok false) (Ok (Some "task-1")) None 2 (Ok (Completed None)) (Ok tt) [] [] true.

Definition sample_world (n : nat) (schedule : list nat) (r : remote) : world :=
  World {[ ["input.mp4"] := File (Video (sample_video n)) ]} 1 0 schedule r.

Definition plain_preprocess : preprocess_config :=
  {| resize := None; normalize := false; grayscale := false;
     enhance_features := false; preserve_details := false |}.

Definition plain_config : workflow_config :=
  {| replacement := None; frame_rate := None; max_frames := None;
     preprocess := plain_preprocess |}.

Definition off : category_config := {| enabled := false; replacement_image := None |}.
Definition on : category_config := {| enabled := true; replacement_image := None |}.

Definition person_config : workflow_config :=
  {| replacement := Some {| person := on; background := off; product := off |};
     frame_rate := None; max_frames := None; preprocess := plain_preprocess |}.

(** Two extracted frames on disk, and a scheduling of the thread pool. *)
Definition frames_world (schedule : list nat) : world :=
  World {[ ["frames"] := Dir;
           ["frames"; "frame_000000.png"] := File (Image (Img 240 320 (Source 0)));
           ["frames"; "frame_000001.png"] := File (Image (Img 240 320 (Source 1))) ]}
        1 0 schedule sample_remote.

(** Three files said to be frames: a picture, something that is no
    picture, and a picture of another size. *)
Definition mixed_frames_world : world :=
  World {[ ["frames"] := Dir;
           ["frames"; "a.png"] := File (Image (Img 240 320 (Source 0)));
           ["frames"; "b.png"] := File Blob;
           ["frames"; "c.png"] := File (Image (Img 100 200 (Source 2))) ]}
        1 0 [] sample_remote.

(** A six-frame video at 30 frames per second. *)
Definition six_frames_world : world := sample_world 6 [] sample_remote.


(** A manager whose last session completed. *)
Definition finished_manager : manager :=
  Manager (Some "0001") STATUS_COMPLETED 100 (Some 1%nat) (Some 9%nat)
    (Some ["temp"; "workflow_old"]) (Some ["old.mp4"])
    (Some ["outputs"; "old_replicated.mp4"])
    [["temp"; "workflow_old"; "frames"; "frame_000000.png"]]
    [["temp"; "workflow_old"; "processed_frames"; "frame_000000.png"]]
    (Some "task-0").

(** * Reasoning about methods of the manager *)

Section wp_rules.
Context {A B : Type}.
Implicit Types (m : manager) (w : world).

Lemma wp_run (c : M A) m w post :
  wp c m w post →
  post (res (c m w)) (mgr_after (c m w)) (world_after (c m w)) (journal (c m w)).
Proof. done. Qed.

Lemma wp_ret (a : A) m w post : post (Ok a) m w [] → wp (mret a) m w post.
Proof. done. Qed.

Lemma wp_raise (e : exn) m w (post : result A → _) :
  post (Raise e) m w [] → wp (raiseM e) m w post.
Proof. done. Qed.

Lemma wp_bind (c : M A) (k : A → M B) m w post :
  wp c m w (λ r m' w' j,
    match r with
    | Ok a => wp (k a) m' w' (λ r2 m2 w2 j2, post r2 m2 w2 (j ++ j2))
    | Raise e => post (Raise e) m' w' j
    end) →
  wp (c ≫= k) m w post.
Proof.
  unfold wp, mbind, M_bind. cbv zeta.
  destruct (res (c m w)); done.
Qed.

Lemma wp_lift (c : W A) m w post :
  (∀ r w', c w = (r, w') → post r m w' []) → wp (lift c) m w post.
Proof.
  intros H. unfold wp, lift. destruct (c w) as [r w'] eqn:E. by apply H.
Qed.

Lemma wp_try (c : M A) (h : exn → M A) m w post :
  wp c m w (λ r m' w' j,
    match r with
    | Ok a => post (Ok a) m' w' j
    | Raise e => wp (h e) m' w' (λ r2 m2 w2 j2, post r2 m2 w2 (j ++ j2))
    end) →
  wp (try_except c h) m w post.
Proof.
  unfold wp, try_except. cbv zeta.
  destruct (c m w) as [r m' w' j]. simpl. destruct r; done.
Qed.
End wp_rules.

Lemma wp_assign f upd m w post :
  post (Ok tt) (upd m) w [Assigned f (upd m)] → wp (assign f upd) m w post.
Proof. done. Qed.

Lemma wp_self m w post : post (Ok m) m w [] → wp self m w post.
Proof. done. Qed.

Ltac wp_start :=
  lazymatch goal with
  | |- context [journal (?c ?m ?w)] =>
      pattern (res (c m w)), (mgr_after (c m w)), (world_after (c m w)), (journal (c m w));
      apply wp_run
  | |- context [res (?c ?m ?w)] =>
      pattern (res (c m w)), (mgr_after (c m w)), (world_after (c m w)), (journal (c m w));
      apply wp_run
  end.

Ltac wp_step :=
  lazymatch goal with
  | |- wp (mbind _ _) _ _ _ => apply wp_bind
  | |- wp (try_except _ _) _ _ _ => apply wp_try
  | |- wp (assign _ _) _ _ _ => apply wp_assign
  | |- wp self _ _ _ => apply wp_self
  | |- wp (mret _) _ _ _ => apply wp_ret
  | |- wp (raiseM _) _ _ _ => apply wp_raise
  | |- wp (_update_status _) _ _ _ => unfold _update_status
  | |- wp (_update_progress _) _ _ _ => unfold _update_progress
  | |- wp _set_failed_state _ _ _ => unfold _set_failed_state
  | |- wp _reset_state _ _ _ => unfold _reset_state
  | |- wp (_execute_workflow_steps _ _) _ _ _ => unfold _execute_workflow_steps
  end; cbv beta iota zeta.

Ltac wp_steps := repeat wp_step.

(** At a call into the world: name its result, the world it leaves and
    the equation between them. *)
Tactic Notation "wp_call" ident(r) ident(w) ident(E) :=
  wp_steps; apply wp_lift; intros r w E; cbv beta iota zeta.

(** * The claims

    ** Cancelling a finished session *)

(** Claim C8. [cancel_workflow] on a session whose status is completed,
    failed or canceled reports [success = False] and changes nothing:
    neither the manager (end time included), nor the world, and nothing
    is assigned. *)
Theorem cancel_workflow_terminal_guard (m : manager) (w : world) :
  status_of m ∈ [STATUS_COMPLETED; STATUS_FAILED; STATUS_CANCELED] →
  let o := cancel_workflow m w in
  (∃ r, res o = Ok r ∧ success r = false) ∧
  mgr_after o = m ∧ world_after o = w ∧ journal o = [].
Proof.
  intros Hterm o. subst o.
  assert (Ht : is_terminal (status_of m) = true).
  { unfold is_terminal. by apply bool_decide_eq_true. }
  wp_start. unfold cancel_workflow. wp_steps.
  rewrite Ht. wp_steps. eauto 6.
Qed.

Lemma cancel_workflow_terminal_guard_witness :
  let o := cancel_workflow finished_manager (sample_world 3 [] sample_remote) in
  (∃ r, res o = Ok r ∧ success r = false) ∧
  mgr_after o = finished_manager ∧
  world_after o = sample_world 3 [] sample_remote ∧ journal o = [].
Proof.
  apply (cancel_workflow_terminal_guard finished_manager (sample_world 3 [] sample_remote)).
  simpl. set_solver.
Defined.

Lemma read_fs_inv {A} (f : filesystem → A) w r w' :
  read_fs f w = (r, w') → r = Ok (f (fs w)) ∧ w' = w.
Proof. unfold read_fs. by intros [= <- <-]. Qed.

Lemma time_time_inv w r w' :
  time_time w = (r, w') →
  r = Ok (clock w) ∧ fs w' = fs w ∧ clock w' = S (clock w) ∧ net w' = net w.
Proof. unfold time_time. by intros [= <- <-]. Qed.

(** ** Starting on a missing input *)

(** Claim C10. When the input video does not exist, [start_workflow]
    raises [FileNotFoundError], sets the status to failed and records an
    end time; since the existence test precedes [_reset_state], every
    other attribute keeps the value the previous session left, and the
    only assignments made are those of [_set_failed_state]. *)
Theorem start_workflow_missing_input (vp : VideoProcessor) (input_video : path)
    (cfg : workflow_config) (m : manager) (w : world) :
  path_exists (fs w) input_video = false →
  let o := start_workflow vp input_video cfg m w in
  res o = Raise FileNotFoundError ∧
  status_of (mgr_after o) = STATUS_FAILED ∧
  end_time (mgr_after o) = Some (clock w) ∧
  workflow_id (mgr_after o) = workflow_id m ∧
  progress (mgr_after o) = progress m ∧
  start_time (mgr_after o) = start_time m ∧
  working_dir (mgr_after o) = working_dir m ∧
  input_video_path (mgr_after o) = input_video_path m ∧
  output_video_path (mgr_after o) = output_video_path m ∧
  frame_paths (mgr_after o) = frame_paths m ∧
  processed_frame_paths (mgr_after o) = processed_frame_paths m ∧
  task_id (mgr_after o) = task_id m ∧
  ev_field <$> journal o = [F_status; F_end_time].
Proof.
  intros Hmissing o. subst o.
  wp_start. unfold start_workflow. wp_call r w1 E.
  apply read_fs_inv in E as [-> ->]. rewrite Hmissing. simpl negb. cbv iota.
  wp_call r w1 E.
  apply time_time_inv in E as (-> & _). wp_steps.
  simpl. done.
Qed.

Lemma start_workflow_missing_input_witness :
  let w := sample_world 3 [] sample_remote in
  let o := start_workflow sample_processor ["missing.mp4"] plain_config finished_manager w in
  res o = Raise FileNotFoundError ∧
  status_of (mgr_after o) = STATUS_FAILED ∧
  end_time (mgr_after o) = Some (clock w) ∧
  workflow_id (mgr_after o) = workflow_id finished_manager ∧
  progress (mgr_after o) = progress finished_manager ∧
  start_time (mgr_after o) = start_time finished_manager ∧
  working_dir (mgr_after o) = working_dir finished_manager ∧
  input_video_path (mgr_after o) = input_video_path finished_manager ∧
  output_video_path (mgr_after o) = output_video_path finished_manager ∧
  frame_paths (mgr_after o) = frame_paths finished_manager ∧
  processed_frame_paths (mgr_after o) = processed_frame_paths finished_manager ∧
  task_id (mgr_after o) = task_id finished_manager ∧
  ev_field <$> journal o = [F_status; F_end_time].
Proof.
  apply (start_workflow_missing_input sample_processor ["missing.mp4"] plain_config
           finished_manager (sample_world 3 [] sample_remote)).
  reflexivity.
Defined.

(** ** Cleaning up twice *)


Lemma remove_directory_ok (d : path) (f : filesystem) :
  (remove_directory d true f).1 = Ok tt.
Proof.
  unfold remove_directory, rmtree.
  destruct (path_exists f d); [|done]. by destruct (f !! d) as [[]|].
Qed.

Lemma remove_directory_gone (d : path) (f : filesystem) :
  is_file f d = false → path_exists (remove_directory d true f).2 d = false.
Proof.
  unfold remove_directory, rmtree, is_file, path_exists.
  destruct (f !! d) as [[|c]|] eqn:E; simpl; try done.
  - intros _.
    assert (filter (λ kv : path * node, ¬ d `prefix_of` kv.1) f !! d = None) as ->; [|done].
    apply map_lookup_filter_None. right. intros x _ Hn. by apply Hn.
  - by rewrite E.
Qed.

Lemma remove_directory_keeps (d p : path) (f : filesystem) x :
  (remove_directory d true f).2 !! p = Some x → f !! p = Some x.
Proof.
  unfold remove_directory, rmtree.
  destruct (path_exists f d); [|done].
  destruct (f !! d) as [[|c]|]; simpl; try done.
  intros H. by apply map_lookup_filter_Some in H as [? _].
Qed.

Lemma outcome_eta {A} (o : outcome A) r m w j :
  res o = r → mgr_after o = m → world_after o = w → journal o = j →
  o = Outcome r m w j.
Proof. destruct o. simpl. by intros -> -> -> ->. Qed.

Lemma cleanup_run (keep : bool) (m : manager) (w : world) :
  let w1 := with_net (set_session_open false (net w)) w in
  let w2 := if truthy_path (working_dir m) && path_exists (fs w) (the (working_dir m) [])
            then with_fs (remove_directory (the (working_dir m) []) true (fs w)).2 w1
            else w1 in
  cleanup keep m w =
    if negb keep && truthy_path (output_video_path m)
       && path_exists (fs w2) (the (output_video_path m) [])
    then let '(r, f) := os_remove (the (output_video_path m) []) (fs w2) in
         Outcome r m (with_fs f w2) []
    else Outcome (Ok tt) m w2 [].
Proof.
  intros w1 w2. subst w1 w2.
  match goal with |- _ = ?x => set (rhs := x) end.
  assert (wp (cleanup keep) m w (λ r m' w' j,
            r = res rhs ∧ m' = mgr_after rhs ∧ w' = world_after rhs ∧ j = journal rhs)) as H.
  2:{ destruct H as (? & ? & ? & ?). destruct rhs. by apply outcome_eta. }
  unfold rhs. clear rhs. unfold cleanup.
  wp_call r w1 E. injection E as <- <-.
  wp_call r w2 E. apply read_fs_inv in E as [-> ->].
  change (fs (with_net _ w)) with (fs w).
  destruct (truthy_path (working_dir m) && path_exists (fs w) (the (working_dir m) [])).
  - wp_call r w2 E. unfold on_fs in E. change (fs (with_net _ w)) with (fs w) in E.
    pose proof (remove_directory_ok (the (working_dir m) []) (fs w)) as Hok.
    destruct (remove_directory (the (working_dir m) []) true (fs w)) as [r' f].
    simpl in Hok. subst r'. injection E as <- <-.
    wp_call r w2 E. apply read_fs_inv in E as [-> ->].
    cbn [fs with_fs snd].
    destruct (negb keep && truthy_path (output_video_path m) && path_exists f (the (output_video_path m) [])).
    + wp_call r w2 E. unfold on_fs in E. cbn [fs with_fs] in E.
      destruct (os_remove (the (output_video_path m) []) f) as [r' f'].
      injection E as <- <-. by destruct r'.
    + by wp_steps.
  - wp_steps. wp_call r w2 E. apply read_fs_inv in E as [-> ->].
    change (fs (with_net _ w)) with (fs w).
    destruct (negb keep && truthy_path (output_video_path m) && path_exists (fs w) (the (output_video_path m) [])).
    + wp_call r w2 E. unfold on_fs in E. change (fs (with_net _ w)) with (fs w) in E.
      destruct (os_remove (the (output_video_path m) []) (fs w)) as [r' f'].
      injection E as <- <-. by destruct r'.
    + by wp_steps.
Qed.

Lemma path_exists_delete (f : filesystem) (p q : path) :
  path_exists f p = false → path_exists (delete q f) p = false.
Proof.
  unfold path_exists. destruct (decide (p = q)) as [->|?].
  - by rewrite lookup_delete_eq.
  - by rewrite lookup_delete_ne.
Qed.

Lemma close_again (w : world) (f : filesystem) :
  with_net (set_session_open false (net (with_fs f (with_net (set_session_open false (net w)) w))))
           (with_fs f (with_net (set_session_open false (net w)) w))
  = with_fs f (with_net (set_session_open false (net w)) w).
Proof. by destruct w as [? ? ? ? []]. Qed.

Lemma with_fs_same (w : world) : with_fs (fs w) w = w.
Proof. by destruct w. Qed.

Lemma with_fs_fs (w : world) (f g : filesystem) : with_fs f (with_fs g w) = with_fs f w.
Proof. done. Qed.

(** Once the working directory is gone and the session is closed,
    [cleanup] finds nothing left to do, unless it still has to delete
    the output file. *)
Lemma cleanup_nothing_left (keep : bool) (m : manager) (w : world) (f : filesystem) :
  let w' := with_fs f (with_net (set_session_open false (net w)) w) in
  (truthy_path (working_dir m) && path_exists f (the (working_dir m) []) = false) →
  (negb keep && truthy_path (output_video_path m)
     && path_exists f (the (output_video_path m) []) = false) →
  cleanup keep m w' = Outcome (Ok tt) m w' [].
Proof.
  intros w' G1 G2. rewrite cleanup_run. cbv zeta.
  replace (fs w') with f by done. rewrite G1.
  unfold w'. rewrite close_again. fold w'.
  replace (fs w') with f by done. by rewrite G2.
Qed.

(** Claim C9, amended. Two [cleanup] calls in a row both return
    normally, and after the first one the working directory of the
    session no longer exists; the second call changes nothing. This
    holds when the working directory, if present, is a directory rather
    than a regular file ([rmtree] with [ignore_errors] leaves a file
    alone), and when, the results being deleted, the output path is not
    a directory ([os.remove] raises on one). *)
Theorem cleanup_idempotent (keep_results : bool) (m : manager) (w : world) :
  (∀ d, working_dir m = Some d → is_file (fs w) d = false) →
  (keep_results = false →
   ∀ p, output_video_path m = Some p → is_dir (fs w) p = false) →
  let first := cleanup keep_results m w in
  let second := cleanup keep_results (mgr_after first) (world_after first) in
  res first = Ok tt ∧ res second = Ok tt ∧
  (∀ d, working_dir m = Some d → d ≠ [] →
        path_exists (fs (world_after first)) d = false) ∧
  mgr_after first = m ∧ mgr_after second = m ∧
  world_after second = world_after first.
Proof.
  intros Hdir Hout first second. subst second first.
  rewrite cleanup_run. cbv zeta.
  set (w1 := with_net (set_session_open false (net w)) w).
  set (wd := the (working_dir m) []).
  set (out := the (output_video_path m) []).
  set (f2 := if truthy_path (working_dir m) && path_exists (fs w) wd
             then (remove_directory wd true (fs w)).2 else fs w).
  assert (Hw2 : (if truthy_path (working_dir m) && path_exists (fs w) wd
                 then with_fs (remove_directory wd true (fs w)).2 w1 else w1)
                = with_fs f2 w1).
  { unfold f2. destruct (_ && _); [done|]. by destruct w as [? ? ? ? []]. }
  rewrite Hw2. clear Hw2. replace (fs (with_fs f2 w1)) with f2 by done.
  assert (Hgone : truthy_path (working_dir m) && path_exists f2 wd = false).
  { unfold f2. destruct (truthy_path (working_dir m)) eqn:Ht; [|done]. simpl.
    destruct (path_exists (fs w) wd) eqn:Hex; [|done].
    apply remove_directory_gone. apply Hdir. subst wd.
    by destruct (working_dir m). }
  assert (Hkeeps : ∀ p x, f2 !! p = Some x → fs w !! p = Some x).
  { intros p x. unfold f2. destruct (_ && _); [|done]. apply remove_directory_keeps. }
  assert (Habsent : ∀ g d, (∀ p, g !! p = None ∨ g !! p = f2 !! p) →
            working_dir m = Some d → d ≠ [] → path_exists g d = false).
  { intros g d Hg Hd Hne. unfold wd in Hgone. rewrite Hd in Hgone.
    destruct d; [done|]. simpl in Hgone. unfold path_exists in *.
    destruct (Hg (s :: d)) as [-> | ->]; [done|]. by destruct (f2 !! (s :: d)). }
  destruct (negb keep_results && truthy_path (output_video_path m) && path_exists f2 out) eqn:G2.
  - apply andb_prop in G2 as [G2 Hex]. apply andb_prop in G2 as [Hk Ht].
    destruct keep_results; [done|]. clear Hk.
    unfold os_remove. unfold path_exists in Hex.
    destruct (f2 !! out) as [[|c]|] eqn:Eo; [|clear Hex|done].
    { apply Hkeeps in Eo. specialize (Hout eq_refl out).
      unfold out in *. destruct (output_video_path m) as [p|]; [|done].
      specialize (Hout eq_refl). change (is_dir (fs w) p = false) in Hout.
      unfold is_dir in Hout.
      change (fs w !! p = Some Dir) in Eo. by rewrite Eo in Hout. }
    cbn [res mgr_after world_after]. rewrite with_fs_fs. unfold w1.
    rewrite cleanup_nothing_left.
    + repeat split. intros d Hd Hne. apply (Habsent _ d); [|done..].
      intros p. cbn [fs with_fs]. destruct (decide (p = out)) as [->|?].
      * left. apply lookup_delete_eq.
      * right. by apply lookup_delete_ne.
    + destruct (truthy_path (working_dir m)); [|done].
      simpl in Hgone |- *. by apply path_exists_delete.
    + unfold path_exists. fold out. rewrite lookup_delete_eq. by rewrite andb_false_r.
  - cbn [res mgr_after world_after]. unfold w1.
    rewrite cleanup_nothing_left; [|done..].
    repeat split. intros d Hd Hne. apply (Habsent _ d); auto.
Qed.

Lemma cleanup_idempotent_witness :
  let m := mgr_after (start_workflow sample_processor ["input.mp4"] plain_config
                        fresh_manager (sample_world 2 [] sample_remote)) in
  let w := world_after (start_workflow sample_processor ["input.mp4"] plain_config
                        fresh_manager (sample_world 2 [] sample_remote)) in
  let first := cleanup false m w in
  let second := cleanup false (mgr_after first) (world_after first) in
  res first = Ok tt ∧ res second = Ok tt ∧
  (∀ d, working_dir m = Some d → d ≠ [] →
        path_exists (fs (world_after first)) d = false) ∧
  mgr_after first = m ∧ mgr_after second = m ∧
  world_after second = world_after first.
Proof.
  apply (cleanup_idempotent false).
  - intros d. vm_compute. by intros [= <-].
  - intros _ p. vm_compute. by intros [= <-].
Defined.

(** Claim C9 fails as stated when the results are to be deleted and a
    directory stands at the output path: the first [cleanup] raises. *)
Lemma cleanup_output_directory_raises :
  let w := World {[ ["outputs"] := Dir; ["outputs"; "old_replicated.mp4"] := Dir ]}
                 1 0 [] sample_remote in
  output_video_path finished_manager = Some ["outputs"; "old_replicated.mp4"] ∧
  res (cleanup false finished_manager w) = Raise IsADirectoryError.
Proof. vm_compute. split; reflexivity. Qed.

(** * Runs of start_workflow *)



(** Brings the attributes of a manager built by assignments into view. *)
Ltac mgr_norm :=
  cbv beta iota zeta delta
    [set_workflow_id set_status set_progress set_start_time set_end_time
     set_working_dir set_input_video_path set_output_video_path set_frame_paths
     set_processed_frame_paths set_task_id
     workflow_id status_of progress start_time end_time working_dir
     input_video_path output_video_path frame_paths processed_frame_paths task_id
     the default].

Ltac wp_hide_post :=
  lazymatch goal with
  | |- wp ?c ?m ?w ?P => let post := fresh "post" in set (post := P)
  end.

(** Calls that always return. *)
Lemma wp_time_time m w post :
  post (Ok (clock w)) m (time_time w).2 [] → wp (lift time_time) m w post.
Proof. done. Qed.

Lemma wp_uuid4 m w post :
  post (uuid4 w).1 m (uuid4 w).2 [] → wp (lift uuid4) m w post.
Proof. done. Qed.

Lemma wp_read_fs {A} (f : filesystem → A) m w post :
  post (Ok (f (fs w))) m w [] → wp (lift (read_fs f)) m w post.
Proof. done. Qed.

Lemma clock_time_time w : clock (time_time w).2 = S (clock w).
Proof. done. Qed.

Lemma fs_time_time w : fs (time_time w).2 = fs w.
Proof. done. Qed.

Lemma fs_uuid4 w : fs (uuid4 w).2 = fs w.
Proof. done. Qed.

Ltac wp_total :=
  lazymatch goal with
  | |- wp (lift time_time) _ _ _ => apply wp_time_time
  | |- wp (lift uuid4) _ _ _ => apply wp_uuid4; unfold uuid4 at 1; cbn [fst]
  | |- wp (lift (read_fs _)) _ _ _ => apply wp_read_fs
  end; cbv beta iota zeta.

(** Runs through a method to each of its ways out, splitting on the
    result of every call into the world and on every test. *)
Ltac wp_explore :=
  repeat first
    [ wp_step; mgr_norm
    | wp_total
    | apply wp_lift; intros [?|?] ? ?; cbv beta iota zeta
    | match goal with
      | |- wp (if ?b then _ else _) _ _ _ => destruct b eqn:?
      end ].


(** ** Progress *)





(** ** The end time *)

(** Claim C2, what the code does. Once [start_workflow] has got as far
    as [_execute_workflow_steps] (the input exists and the output path
    has been assigned), a run that returns stamps [end_time] once, and a
    run that raises stamps it twice: [_set_failed_state] runs in the
    handler of [_execute_workflow_steps] and again in the handler of
    [start_workflow], which overwrites the first stamp with a later
    one. *)
Theorem end_time_assigned_twice (vp : VideoProcessor) (input_video : path)
    (cfg : workflow_config) (m : manager) (w : world) :
  path_exists (fs w) input_video = true →
  let o := start_workflow vp input_video cfg m w in
  output_video_path (mgr_after o) ≠ None →
  match res o with
  | Ok _ => ∃ t, end_stamps (journal o) = [t] ∧ end_time (mgr_after o) = Some t
  | Raise _ =>
      ∃ t, end_stamps (journal o) = [t; S t] ∧ end_time (mgr_after o) = Some (S t)
  end.
Proof.
  intros Hin o. subst o. wp_start.
  destruct m as [wid st p t0 t1 wd inp out fr pfr tid].
  wp_hide_post. unfold start_workflow.
  wp_steps. wp_total. rewrite Hin. cbn [negb].
  wp_explore.
  all: subst post; cbv beta.
  all: cbn [output_video_path]; intros Hout; try (contradict Hout; reflexivity).
  all: eexists; split; lazy; reflexivity.
Qed.


Lemma end_time_assigned_twice_witness :
  let w := sample_world 3 [] unreachable_remote in
  let o := start_workflow sample_processor ["input.mp4"] plain_config fresh_manager w in
  path_exists (fs w) ["input.mp4"] = true ∧
  output_video_path (mgr_after o) ≠ None ∧
  match res o with
  | Ok _ => ∃ t, end_stamps (journal o) = [t] ∧ end_time (mgr_after o) = Some t
  | Raise _ =>
      ∃ t, end_stamps (journal o) = [t; S t] ∧ end_time (mgr_after o) = Some (S t)
  end.
Proof.
  split; [reflexivity|]. split; [vm_compute; discriminate|].
  apply (end_time_assigned_twice sample_processor ["input.mp4"] plain_config
           fresh_manager (sample_world 3 [] unreachable_remote)).
  - reflexivity.
  - vm_compute. discriminate.
Defined.

(** On that input the connection test fails; the two stamps are 7 and 8. *)
Lemma end_time_overwritten_example :
  let o := start_workflow sample_processor ["input.mp4"] plain_config fresh_manager
             (sample_world 3 [] unreachable_remote) in
  res o = Raise RuntimeError ∧
  end_stamps (journal o) = [7%nat; 8%nat] ∧
  end_time (mgr_after o) = Some 8%nat.
Proof. vm_compute. repeat split. Qed.

(** * Preprocessing and uploading

    ** Creating directories *)

Lemma mkdir_parents_keeps (above : path) (below : list string) (f : filesystem) (p : path) x :
  f !! p = Some x → (mkdir_parents above below f).2 !! p = Some x.
Proof.
  revert above f. induction below as [|c below IH]; intros above f Hp; simpl; [done|].
  destruct (f !! (above ++ [c])) as [[|?]|] eqn:E; simpl; [by apply IH|done|].
  apply IH. rewrite lookup_insert_ne; [done|]. intros <-. congruence.
Qed.

Lemma mkdir_parents_imread (above : path) (below : list string) (f : filesystem) (p : path) :
  imread (mkdir_parents above below f).2 p = imread f p.
Proof.
  revert above f. induction below as [|c below IH]; intros above f; simpl; [done|].
  destruct (f !! (above ++ [c])) as [[|?]|] eqn:E; simpl; [by apply IH|done|].
  rewrite IH. unfold imread. destruct (decide (above ++ [c] = p)) as [<-|?].
  - by rewrite lookup_insert_eq, E.
  - by rewrite lookup_insert_ne.
Qed.

Lemma prefix_extend {A} (above q : list A) (c : A) (below : list A) :
  above `prefix_of` q → q ≠ above → q `prefix_of` above ++ c :: below →
  above ++ [c] `prefix_of` q.
Proof.
  intros [k ->] Hne [k' Hk']. rewrite <- app_assoc in Hk'.
  apply app_inv_head in Hk'. destruct k as [|c' k].
  - by rewrite app_nil_r in Hne.
  - injection Hk' as -> _. exists k. by rewrite <- app_assoc.
Qed.

Lemma mkdir_parents_dirs (above : path) (below : list string) (f : filesystem) (q : path) :
  (mkdir_parents above below f).1 = Ok tt →
  above `prefix_of` q → q ≠ above → q `prefix_of` above ++ below →
  (mkdir_parents above below f).2 !! q = Some Dir.
Proof.
  revert above f. induction below as [|c below IH]; intros above f Hok Ha Hne Hq.
  - rewrite app_nil_r in Hq. destruct Hne. by apply (anti_symm prefix).
  - pose proof (prefix_extend above q c below Ha Hne Hq) as Hc.
    simpl in Hok |- *.
    destruct (f !! (above ++ [c])) as [[|content]|] eqn:E; [| done |].
    + destruct (decide (q = above ++ [c])) as [->|Hne'].
      * by apply mkdir_parents_keeps.
      * apply IH; [done..|]. by rewrite <- app_assoc.
    + destruct (decide (q = above ++ [c])) as [->|Hne'].
      * apply mkdir_parents_keeps. by rewrite lookup_insert_eq.
      * apply IH; [done..|]. by rewrite <- app_assoc.
Qed.

Lemma mkdir_parents_existing (above : path) (below : list string) (f : filesystem) :
  (∀ q, above `prefix_of` q → q ≠ above → q `prefix_of` above ++ below → f !! q = Some Dir) →
  mkdir_parents above below f = (Ok tt, f).
Proof.
  revert above. induction below as [|c below IH]; intros above Hdirs; simpl; [done|].
  rewrite (Hdirs (above ++ [c])).
  - apply IH. intros q Hq1 Hq2 Hq3. apply Hdirs.
    + etrans; [|exact Hq1]. by exists [c].
    + intros ->. apply Hq2. apply (anti_symm prefix); [by exists [c]|done].
    + by rewrite <- app_assoc in Hq3.
  - by exists [c].
  - intros H. apply (f_equal length) in H. rewrite length_app in H. simpl in H. lia.
  - exists below. by rewrite <- app_assoc.
Qed.

Lemma mkdir_parents_new (above : path) (below : list string) (f : filesystem)
    (q : path) (x : node) :
  (mkdir_parents above below f).2 !! q = Some x →
  f !! q = Some x ∨ (above `prefix_of` q ∧ q ≠ above ∧ q `prefix_of` above ++ below).
Proof.
  revert above f. induction below as [|c below IH]; intros above f; simpl; [by left|].
  assert (Ha : above `prefix_of` above ++ [c]) by (by exists [c]).
  assert (Hne : above ++ [c] ≠ above).
  { intros H. apply (f_equal length) in H. rewrite length_app in H. simpl in H. lia. }
  assert (Hup : ∀ q, above ++ [c] `prefix_of` q → q ≠ above).
  { intros q' Hq1 ->. apply Hne. by apply (anti_symm prefix). }
  destruct (f !! (above ++ [c])) as [[|content]|] eqn:E; simpl; [|by left|].
  - intros [H|(H1 & H2 & H3)]%IH; [by left|right].
    split; [by etrans|]. split; [by apply Hup|]. by rewrite <- app_assoc in H3.
  - intros [H|(H1 & H2 & H3)]%IH.
    + destruct (decide (q = above ++ [c])) as [->|Hq].
      * right. split; [done|]. split; [done|]. exists below. by rewrite <- app_assoc.
      * left. by rewrite lookup_insert_ne in H.
    + right. split; [by etrans|]. split; [by apply Hup|]. by rewrite <- app_assoc in H3.
Qed.

Lemma path_join_not_prefix (dir : path) (name : string) : ¬ path_join dir name `prefix_of` dir.
Proof.
  intros [k Hk]. apply (f_equal length) in Hk. unfold path_join in Hk.
  rewrite !length_app in Hk. simpl in Hk. lia.
Qed.

(** ** The order of the processed frames *)

Lemma imread_imwrite (f : filesystem) (p q : path) im :
  is_Some (imread f p) → is_Some (imread (imwrite f q im) p).
Proof.
  unfold imread, imwrite. destruct (can_create f q); [|done].
  destruct (decide (q = p)) as [<-|?].
  - by rewrite lookup_insert_eq.
  - by rewrite lookup_insert_ne.
Qed.

Lemma preprocessed_ok (cfg : preprocess_config) (frame : image) :
  resize_ok cfg = true → ∃ picture, preprocessed cfg frame = Ok picture.
Proof.
  unfold resize_ok, preprocessed, resize_to, mbind, result_bind.
  destruct (resize cfg) as [[[|width|width] [|height|height]]|]; try done; eauto.
Qed.

Lemma preprocessed_raises (cfg : preprocess_config) (frame : image) :
  resize_ok cfg = false → preprocessed cfg frame = Raise Cv2Error.
Proof.
  unfold resize_ok, preprocessed, resize_to, mbind, result_bind.
  by destruct (resize cfg) as [[[|width|width] [|height|height]]|].
Qed.

Lemma collect_completed_order (frame_paths : list path) (dir : path) cfg order acc w :
  (∀ p, p ∈ frame_paths → is_Some (imread (fs w) p)) →
  (collect_completed frame_paths dir cfg order acc w).1
  = acc ++ (if resize_ok cfg then omap (processed_path_of frame_paths dir) order else []).
Proof.
  revert acc w. induction order as [|i order IH]; intros acc w Hread; cbn [collect_completed].
  - destruct (resize_ok cfg); by rewrite app_nil_r.
  - change (omap ?g (i :: order)) with (match g i with Some y => y :: omap g order
                                                     | None => omap g order end).
    unfold processed_path_of at 1. destruct (frame_paths !! i) as [p|] eqn:Hi; simpl;
      [|by apply IH].
    unfold _preprocess_single_frame.
    destruct (Hread p) as [im Him]; [by eapply list_elem_of_lookup_2|].
    rewrite Him. destruct (resize_ok cfg) eqn:Hsize.
    + destruct (preprocessed_ok cfg im Hsize) as [picture ->]. rewrite IH.
      * by rewrite <- app_assoc.
      * intros q Hq. simpl. by apply imread_imwrite, Hread.
    + rewrite (preprocessed_raises cfg im Hsize). by rewrite IH.
Qed.

Lemma filter_all {A} (P : A → Prop) `{∀ x, Decision (P x)} (l : list A) :
  Forall P l → filter P l = l.
Proof.
  induction 1 as [|x l Hx _ IH]; [done|]. rewrite filter_cons_True by done. by f_equal.
Qed.

Lemma filter_none {A} (P : A → Prop) `{∀ x, Decision (P x)} (l : list A) :
  Forall (λ x, ¬ P x) l → filter P l = [].
Proof.
  induction 1 as [|x l Hx _ IH]; [done|]. by rewrite filter_cons_False.
Qed.

Lemma remove_dups_NoDup {A} `{EqDecision A} (l : list A) : NoDup l → remove_dups l = l.
Proof.
  induction 1 as [|x l Hx _ IH]; simpl; [done|].
  destruct (decide_rel _ x l); [done|by f_equal].
Qed.

Lemma completion_order_permutation (order : list nat) (n : nat) :
  order ≡ₚ seq 0 n → completion_order order n = order.
Proof.
  intros Hp. unfold completion_order.
  assert (Hnd : NoDup order) by (rewrite Hp; apply NoDup_seq).
  assert (Hall : ∀ i, i ∈ order ↔ (i < n)%nat).
  { intros i. rewrite Hp, elem_of_seq. lia. }
  rewrite filter_all by (apply Forall_forall; intros i; apply Hall).
  rewrite remove_dups_NoDup by done.
  rewrite filter_none; [by rewrite app_nil_r|].
  apply Forall_forall. intros i Hi%elem_of_seq Hni. apply Hni, Hall. lia.
Qed.

Lemma preprocess_frames_run (vp : VideoProcessor) (frame_paths : list path) (dir : path)
    (cfg : preprocess_config) (w : world) :
  preprocess_frames vp frame_paths (Some dir) cfg w =
    match ensure_directory dir (fs w) with
    | (Ok _, f) =>
        if bool_decide (max_workers vp ≤ 0)
        then (Raise ValueError, with_fs f (time_time w).2)
        else
          let '(ps, w') := collect_completed frame_paths dir cfg
                             (completion_order (pool_schedule w) (length frame_paths)) []
                             (with_fs f (time_time w).2) in
          (Ok ps, (time_time w').2)
    | (Raise e, f) => (Raise e, with_fs f (time_time w).2)
    end.
Proof.
  unfold preprocess_frames, mbind, W_bind, mret, W_ret, on_fs, raise.
  cbn [time_time fst snd fs with_fs].
  destruct (ensure_directory dir (fs w)) as [[[]|e] f]; [|done].
  destruct (bool_decide (max_workers vp ≤ 0)); [done|].
  cbn [pool_schedule with_fs].
  by destruct (collect_completed _ _ _ _ _ _) as [ps w'].
Qed.

(** Claim C1, what the code does. [preprocess_frames] appends the
    results in the order in which [as_completed] yields the futures:
    with a pool of at least one worker and frames that can all be read,
    entry [k] of the returned list is the output of the input frame that
    finished [k]-th, whatever its index (and with a resize to a width or
    a height that is not positive every task fails, so that the list is
    empty). The claim asks for entry [i] to belong to input frame [i]. *)
Theorem preprocess_frames_completion_order (vp : VideoProcessor)
    (frame_paths : list path) (dir : path) (cfg : preprocess_config) (w : world) :
  0 < max_workers vp →
  pool_schedule w ≡ₚ seq 0 (length frame_paths) →
  (∀ p, p ∈ frame_paths → is_Some (imread (fs w) p)) →
  (ensure_directory dir (fs w)).1 = Ok tt →
  (preprocess_frames vp frame_paths (Some dir) cfg w).1
  = Ok (if resize_ok cfg
        then omap (processed_path_of frame_paths dir) (pool_schedule w)
        else []).
Proof.
  intros Hworkers Hperm Hread Hdir. rewrite preprocess_frames_run.
  rewrite completion_order_permutation by done.
  pose proof (collect_completed_order frame_paths dir cfg (pool_schedule w) []
                (with_fs (ensure_directory dir (fs w)).2 (time_time w).2)) as Hc.
  destruct (ensure_directory dir (fs w)) as [r f] eqn:Hf. simpl in Hdir. subst r.
  cbn [snd] in Hc. rewrite bool_decide_false by lia.
  destruct (collect_completed _ _ _ _ _ _) as [ps w']. cbn [fst] in *.
  rewrite Hc; [done|].
  intros p Hp. cbn [fs with_fs].
  pose proof (mkdir_parents_imread [] dir (fs w) p) as Hm.
  unfold ensure_directory in Hf. rewrite Hf in Hm. cbn [snd] in Hm. rewrite Hm. by apply Hread.
Qed.

Lemma preprocess_frames_completion_order_witness :
  let frame_paths := [["frames"; "frame_000000.png"]; ["frames"; "frame_000001.png"]] in
  let w := frames_world [1; 0]%nat in
  0 < max_workers sample_processor ∧
  pool_schedule w ≡ₚ seq 0 (length frame_paths) ∧
  (∀ p, p ∈ frame_paths → is_Some (imread (fs w) p)) ∧
  (ensure_directory ["processed"] (fs w)).1 = Ok tt ∧
  (preprocess_frames sample_processor frame_paths (Some ["processed"]) plain_preprocess w).1
  = Ok (omap (processed_path_of frame_paths ["processed"]) (pool_schedule w)).
Proof.
  assert (Hperm : [1; 0]%nat ≡ₚ seq 0 2) by apply perm_swap.
  assert (Hread : ∀ p, p ∈ [["frames"; "frame_000000.png"]; ["frames"; "frame_000001.png"]] →
                       is_Some (imread (fs (frames_world [1; 0]%nat)) p)).
  { intros p Hp. apply elem_of_cons in Hp as [->|Hp]; [by vm_compute; eauto|].
    apply elem_of_cons in Hp as [->|Hp]; [by vm_compute; eauto|]. by apply elem_of_nil in Hp. }
  split; [reflexivity|].
  split; [exact Hperm|]. split; [exact Hread|]. split; [reflexivity|].
  exact (preprocess_frames_completion_order sample_processor
           [["frames"; "frame_000000.png"]; ["frames"; "frame_000001.png"]]
           ["processed"] plain_preprocess (frames_world [1; 0]%nat)
           eq_refl Hperm Hread eq_refl).
Defined.

(** With two frames of which the second finishes first, the list comes
    back swapped; in a whole run the swap reaches the encoded video. *)
Lemma preprocess_frames_swapped_example :
  (preprocess_frames sample_processor
     [["frames"; "frame_000000.png"]; ["frames"; "frame_000001.png"]]
     (Some ["processed"]) plain_preprocess (frames_world [1; 0]%nat)).1
  = Ok [["processed"; "frame_000001.png"]; ["processed"; "frame_000000.png"]] ∧
  let o := start_workflow sample_processor ["input.mp4"] plain_config fresh_manager
             (sample_world 3 [1; 0]%nat sample_remote) in
  fs (world_after o) !! ["outputs"; "input_replicated.mp4"]
  = Some (File (Encoded fps30 [Img 240 320 (Source 1); Img 240 320 (Source 0);
                            Img 240 320 (Source 2)])).
Proof. split; vm_compute; reflexivity. Qed.

(** ** What is uploaded *)

(** Claim C4, at an input where it fails. With the person replacement
    enabled on a two-frame video the run completes; the files uploaded
    for the task are those of [processed_frames], while
    [processed_frame_paths] holds the paths under [replaced_frames]
    written by the replacement stage: no processed frame is among the
    uploaded files. *)
Theorem upload_sends_frames_before_replacement :
  let o := start_workflow sample_processor ["input.mp4"] person_config fresh_manager
             (sample_world 2 [] sample_remote) in
  let uploaded := up_file <$> received (net (world_after o)) in
  let processed := processed_frame_paths (mgr_after o) in
  is_ok (res o) = true ∧
  up_task <$> received (net (world_after o)) = ["task-1"; "task-1"] ∧
  uploaded = path_join ["temp"; "workflow_2_00000000"; "processed_frames"]
               <$> ["frame_000000.png"; "frame_000001.png"] ∧
  processed = path_join ["temp"; "workflow_2_00000000"; "replaced_frames"]
               <$> ["frame_000000.png"; "frame_000001.png"] ∧
  Forall (λ p, p ∉ uploaded) processed.
Proof.
  intros o uploaded processed.
  split; [vm_compute; reflexivity|]. split; [vm_compute; reflexivity|].
  split; [vm_compute; reflexivity|]. split; [vm_compute; reflexivity|].
  apply (bool_decide_unpack _). vm_compute. exact I.
Qed.

(** ** The composer *)

(** What the writing loop produces, frame by frame. *)
Lemma write_frames_spec (f : filesystem) (height width : positive) (frame_paths : list path) :
  write_frames f height width frame_paths
  = omap (λ p, fitted height width <$> imread f p) frame_paths.
Proof.
  induction frame_paths as [|p ps IH]; simpl; [done|].
  destruct (imread f p) as [frame|]; simpl; [|done]. by rewrite IH.
Qed.

Lemma fitted_size (height width : positive) (frame : image) :
  im_height (fitted height width frame) = height ∧
  im_width (fitted height width frame) = width.
Proof.
  unfold fitted. case_bool_decide as H; simpl; [done|].
  split; destruct (decide (im_height frame = height)), (decide (im_width frame = width)); tauto.
Qed.

Lemma fitted_same (height width : positive) (frame : image) :
  im_height frame = height → im_width frame = width → fitted height width frame = frame.
Proof.
  intros H1 H2. unfold fitted. rewrite bool_decide_false; [done|]. tauto.
Qed.

Lemma omap_ext_in {A B} (f g : A → option B) (l : list A) :
  (∀ x, x ∈ l → f x = g x) → omap f l = omap g l.
Proof.
  induction l as [|x l IH]; intros H; [done|].
  change (omap f (x :: l)) with (match f x with Some y => y :: omap f l | None => omap f l end).
  change (omap g (x :: l)) with (match g x with Some y => y :: omap g l | None => omap g l end).
  rewrite (H x) by apply list_elem_of_here.
  rewrite IH; [done|]. intros y Hy. apply H. by apply list_elem_of_further.
Qed.

Lemma omap_length_filter {A B} (f : A → option B) (l : list A) :
  length (omap f l) = length (filter (λ x, is_Some (f x)) l).
Proof.
  induction l as [|x l IH]; [done|].
  change (omap f (x :: l)) with (match f x with Some y => y :: omap f l | None => omap f l end).
  rewrite filter_cons. destruct (f x) as [y|] eqn:E.
  - rewrite decide_True by eauto. simpl. by rewrite IH.
  - rewrite decide_False by (by intros [? ?]). done.
Qed.

Lemma imread_other (f : filesystem) (p q : path) (c : content) :
  p ≠ q → imread (<[q := File c]> f) p = imread f p.
Proof. intros H. unfold imread. by rewrite lookup_insert_ne. Qed.

(** Once the parent of [p] has been made, a file can be created at [p]
    unless [p] is a directory (or no path at all). *)
Lemma can_create_after_mkdir (p : path) (f : filesystem) :
  (ensure_directory (dirname p) f).1 = Ok tt →
  can_create (ensure_directory (dirname p) f).2 p
  = negb (bool_decide (p = [])) && negb (is_dir f p).
Proof.
  intros Hok. destruct (decide (p = [])) as [->|Hp]; [done|].
  rewrite bool_decide_false by done. cbn [negb andb].
  assert (Hsplit : p = dirname p ++ [basename p]) by (by apply app_removelast_last).
  assert (Hnot : ¬ p `prefix_of` dirname p).
  { rewrite Hsplit at 1. apply path_join_not_prefix. }
  assert (Hsame : (ensure_directory (dirname p) f).2 !! p = f !! p).
  { destruct (f !! p) as [x|] eqn:E; [by apply mkdir_parents_keeps|].
    destruct ((ensure_directory (dirname p) f).2 !! p) as [x|] eqn:E'; [|done].
    apply mkdir_parents_new in E' as [E'|(_ & _ & E')]; [congruence|]. by destruct Hnot. }
  unfold can_create, is_dir. rewrite Hsame. destruct p as [|c p']; [done|].
  destruct (dirname (c :: p')) as [|d ds] eqn:Hd; [by rewrite andb_true_r|].
  rewrite ?Hd in Hok. unfold ensure_directory in Hok |- *.
  rewrite mkdir_parents_dirs; [by rewrite andb_true_r|done|by eexists|done|done].
Qed.

Lemma frames_to_video_run (vp : VideoProcessor) (frame_paths : list path)
    (output_path : path) (fps : float) (w : world) :
  frames_to_video vp frame_paths output_path fps w =
    match frame_paths with
    | [] => (Raise ValueError, (time_time w).2)
    | first_path :: _ =>
        match ensure_directory (dirname output_path) (fs w) with
        | (Raise e, f) => (Raise e, with_fs f (time_time w).2)
        | (Ok _, f) =>
            match imread f first_path with
            | None => (Raise ValueError, with_fs f (time_time w).2)
            | Some first_frame =>
                let opened := <[output_path := File (Encoded fps [])]> f in
                (Ok output_path,
                 (time_time
                    (with_fs (if writer_opens vp f output_path fps
                              then <[output_path :=
                                       File (Encoded fps
                                         (write_frames opened (im_height first_frame)
                                            (im_width first_frame) frame_paths))]> opened
                              else f)
                       (time_time w).2)).2)
            end
        end
    end.
Proof.
  unfold frames_to_video, mbind, W_bind, mret, W_ret, on_fs, read_fs, raise.
  cbn [time_time fst snd fs with_fs].
  destruct frame_paths as [|first_path rest]; [done|].
  cbn [fs with_fs].
  destruct (ensure_directory (dirname output_path) (fs w)) as [[[]|e] f]; [|done].
  cbn [fs with_fs]. destruct (imread f first_path); [|done].
  cbn [fs with_fs]. by destruct (writer_opens vp f output_path fps).
Qed.

(** Claim C6, amended. [frames_to_video] raises on an empty sequence,
    and also when the first path cannot be read as a picture: the
    reference size is that of the first frame of the list, not of the
    first readable one. When the first frame is readable the call
    returns the output path. With a writer that opens (a rate above 0
    that the encoder takes, and an output path at which no directory
    stands) the file written holds the readable frames in the order of
    the list, each one at the size of the first (resized where it
    differs), the unreadable ones left out, so the number written is at
    most the number of paths. With a writer that does not open nothing
    is written, and the call returns all the same. *)
Theorem frames_to_video_normalises (vp : VideoProcessor) (frame_paths : list path)
    (output_path : path) (fps : float) (w : world) :
  (* an empty sequence raises *)
  (frame_paths = [] →
   (frames_to_video vp frame_paths output_path fps w).1 = Raise ValueError) ∧
  (* so does a first frame that cannot be read *)
  (∀ first_path rest, frame_paths = first_path :: rest →
     (ensure_directory (dirname output_path) (fs w)).1 = Ok tt →
     imread (fs w) first_path = None →
     (frames_to_video vp frame_paths output_path fps w).1 = Raise ValueError) ∧
  (* otherwise the call returns; the frames to write are the readable
     ones, in order, each at the size of the first *)
  (∀ first_path rest first_frame, frame_paths = first_path :: rest →
     (ensure_directory (dirname output_path) (fs w)).1 = Ok tt →
     imread (fs w) first_path = Some first_frame →
     output_path ∉ frame_paths →
     let height := im_height first_frame in
     let width := im_width first_frame in
     let written := omap (λ p, fitted height width <$> imread (fs w) p) frame_paths in
     let o := frames_to_video vp frame_paths output_path fps w in
     o.1 = Ok output_path ∧
     Forall (λ frame, im_height frame = height ∧ im_width frame = width) written ∧
     (length written ≤ length frame_paths)%nat ∧
     length written = length (filter (λ p, is_Some (imread (fs w) p)) frame_paths) ∧
     (* the writer opens *)
     (float_positive fps = true → encoder_accepts vp fps = true →
      output_path ≠ [] → is_dir (fs w) output_path = false →
      fs o.2 !! output_path = Some (File (Encoded fps written))) ∧
     (* the writer does not open *)
     (float_positive fps = false ∨ encoder_accepts vp fps = false ∨
      output_path = [] ∨ is_dir (fs w) output_path = true →
      fs o.2 = (ensure_directory (dirname output_path) (fs w)).2)).
Proof.
  rewrite frames_to_video_run. split; [|split].
  - by intros ->.
  - intros first_path rest -> Hdir Hfirst.
    pose proof (mkdir_parents_imread [] (dirname output_path) (fs w) first_path) as Hm.
    fold (ensure_directory (dirname output_path) (fs w)) in Hm.
    destruct (ensure_directory (dirname output_path) (fs w)) as [r f].
    simpl in Hdir, Hm. subst r. by rewrite Hm, Hfirst.
  - intros first_path rest first_frame -> Hdir Hfirst Hout height width written o.
    subst o.
    assert (Hm : ∀ p, imread (ensure_directory (dirname output_path) (fs w)).2 p = imread (fs w) p)
      by (intros p; apply mkdir_parents_imread).
    pose proof (can_create_after_mkdir output_path (fs w) Hdir) as Hcreate.
    destruct (ensure_directory (dirname output_path) (fs w)) as [r f].
    simpl in Hdir, Hm, Hcreate. subst r. rewrite Hm, Hfirst. cbn [fst snd].
    assert (Hw : write_frames (<[output_path:=File (Encoded fps [])]> f)
                   (im_height first_frame) (im_width first_frame) (first_path :: rest) = written).
    { rewrite write_frames_spec. unfold written, height, width.
      apply omap_ext_in. intros p Hp.
      rewrite imread_other by (intros ->; done). by rewrite Hm. }
    rewrite Hw. split; [done|]. split.
    { unfold written. clear. induction (first_path :: rest) as [|p ps IH]; simpl; [constructor|].
      destruct (imread (fs w) p) as [frame|]; simpl; [|done].
      constructor; [apply fitted_size|done]. }
    split.
    { unfold written. rewrite omap_length_filter. apply length_filter. }
    split.
    { unfold written. rewrite omap_length_filter.
      f_equal. apply list_filter_iff. intros p. unfold is_Some.
      apply fmap_is_Some. }
    unfold writer_opens. rewrite Hcreate. unfold time_time. cbn [fs with_fs snd]. split.
    + intros -> -> Hne ->. rewrite bool_decide_false by done. cbn [negb andb fs].
      by rewrite lookup_insert_eq.
    + intros [-> | [-> | [-> | ->]]]; rewrite ?andb_false_r; done.
Qed.

Lemma frames_to_video_normalises_witness :
  let frame_paths := [["frames"; "a.png"]; ["frames"; "b.png"]; ["frames"; "c.png"]] in
  let o := frames_to_video sample_processor frame_paths ["outputs"; "out.mp4"] fps30
             mixed_frames_world in
  let written := [Img 240 320 (Source 0);
                  Img 240 320 (Resized true 320 240 (Source 2))] in
  o.1 = Ok ["outputs"; "out.mp4"] ∧
  Forall (λ frame, im_height frame = 240%positive ∧ im_width frame = 320%positive) written ∧
  (length written ≤ length frame_paths)%nat ∧
  length written
  = length (filter (λ p, is_Some (imread (fs mixed_frames_world) p)) frame_paths) ∧
  fs o.2 !! ["outputs"; "out.mp4"] = Some (File (Encoded fps30 written)).
Proof.
  destruct (frames_to_video_normalises sample_processor
              [["frames"; "a.png"]; ["frames"; "b.png"]; ["frames"; "c.png"]]
              ["outputs"; "out.mp4"] fps30 mixed_frames_world) as (_ & _ & H).
  destruct (H ["frames"; "a.png"] [["frames"; "b.png"]; ["frames"; "c.png"]]
              (Img 240 320 (Source 0))) as (H1 & H2 & H3 & H4 & H5 & _); try reflexivity.
  { apply (bool_decide_unpack _). vm_compute. exact I. }
  split; [exact H1|]. split; [exact H2|]. split; [exact H3|]. split; [exact H4|].
  apply H5; try reflexivity. discriminate.
Defined.

(** Claim C6 fails as stated when the first path is the one that does
    not load: the sequence is not empty and holds a valid frame, and the
    call raises instead of skipping the bad one. *)
Lemma frames_to_video_first_frame_unreadable :
  let w := mixed_frames_world in
  let frame_paths := [["frames"; "b.png"]; ["frames"; "a.png"]] in
  frame_paths ≠ [] ∧
  is_Some (imread (fs w) ["frames"; "a.png"]) ∧
  (ensure_directory (dirname ["outputs"; "out.mp4"]) (fs w)).1 = Ok tt ∧
  (frames_to_video sample_processor frame_paths ["outputs"; "out.mp4"] fps30 w).1
  = Raise ValueError.
Proof.
  split; [discriminate|]. split; [vm_compute; eauto|]. split; vm_compute; reflexivity.
Qed.

(** A rate of 0: the writer does not open, the call returns the path of
    a video that does not exist. *)
Lemma frames_to_video_rate_zero :
  let o := frames_to_video sample_processor [["frames"; "a.png"]] ["outputs"; "out.mp4"]
             (float_of_Z 0) mixed_frames_world in
  o.1 = Ok ["outputs"; "out.mp4"] ∧ fs o.2 !! ["outputs"; "out.mp4"] = None.
Proof. vm_compute. split; reflexivity. Qed.

(** ** Sampling at extraction *)

(** *** Arithmetic of the sampling interval *)

Lemma ceil_div_multiple (c i : Z) :
  0 < i → c mod i = 0 → ceil_div c i * i = c ∧ ceil_div (c + 1) i = ceil_div c i + 1.
Proof.
  intros Hi Hm. unfold ceil_div.
  pose proof (Z.div_mod c i ltac:(lia)) as Hc. rewrite Hm in Hc.
  assert (H1 : (c + i - 1) / i = c / i).
  { symmetry. apply (Z.div_unique _ _ _ (i - 1)); lia. }
  assert (H2 : (c + 1 + i - 1) / i = c / i + 1).
  { symmetry. apply (Z.div_unique _ _ _ 0); lia. }
  rewrite H1, H2. split; lia.
Qed.

Lemma ceil_div_between (c i : Z) :
  0 < i → c mod i ≠ 0 → ceil_div (c + 1) i = ceil_div c i.
Proof.
  intros Hi Hm. unfold ceil_div.
  pose proof (Z.div_mod c i ltac:(lia)) as Hc.
  pose proof (Z.mod_pos_bound c i Hi) as Hb.
  assert (H1 : (c + i - 1) / i = c / i + 1).
  { symmetry. apply (Z.div_unique _ _ _ (c mod i - 1)); lia. }
  assert (H2 : (c + 1 + i - 1) / i = c / i + 1).
  { symmetry. apply (Z.div_unique _ _ _ (c mod i)); lia. }
  by rewrite H1, H2.
Qed.

Lemma ceil_div_mono (a b i : Z) : 0 < i → a ≤ b → ceil_div a i ≤ ceil_div b i.
Proof. intros Hi Hab. unfold ceil_div. apply Z.div_le_mono; lia. Qed.

Lemma ceil_div_0 (i : Z) : 0 < i → ceil_div 0 i = 0.
Proof. intros Hi. unfold ceil_div. apply Z.div_small. lia. Qed.

Lemma ceil_div_nonneg (c i : Z) : 0 < i → 0 ≤ c → 0 ≤ ceil_div c i.
Proof. intros Hi Hc. unfold ceil_div. apply Z.div_pos; lia. Qed.

Lemma multiples_snoc (i n : Z) : 0 ≤ n → multiples i (n + 1) = multiples i n ++ [n * i].
Proof.
  intros Hn. unfold multiples.
  replace (Z.to_nat (n + 1)) with (S (Z.to_nat n)) by lia.
  rewrite seq_S, fmap_app. simpl. do 3 f_equal. lia.
Qed.

Lemma numbered_frames_snoc (dir : path) (n : Z) :
  0 ≤ n → numbered_frames dir (n + 1) = numbered_frames dir n ++ [path_join dir (frame_filename n)].
Proof.
  intros Hn. unfold numbered_frames.
  replace (Z.to_nat (n + 1)) with (S (Z.to_nat n)) by lia.
  rewrite seq_S, fmap_app. simpl. do 4 f_equal. lia.
Qed.

Lemma multiples_increasing (i n : Z) (a b : Z) (j k : nat) :
  0 < i → (j < k)%nat → multiples i n !! j = Some a → multiples i n !! k = Some b → a < b.
Proof.
  intros Hi Hjk. unfold multiples. rewrite !list_lookup_fmap.
  intros Ha Hb.
  destruct (seq 0 (Z.to_nat n) !! j) as [j'|] eqn:Ej; [|done].
  destruct (seq 0 (Z.to_nat n) !! k) as [k'|] eqn:Ek; [|done].
  apply lookup_seq in Ej as [-> _]. apply lookup_seq in Ek as [-> _].
  simpl in Ha, Hb. injection Ha as <-. injection Hb as <-. nia.
Qed.

(** *** The extraction loop *)

Lemma saved_frames_snoc (dir : path) (frames : list image) (i n : Z) :
  0 ≤ n →
  saved_frames dir frames i (n + 1)
  = saved_frames dir frames i n
    ++ [(path_join dir (frame_filename n), frames !!! Z.to_nat (n * i))].
Proof.
  intros Hn. unfold saved_frames.
  replace (Z.to_nat (n + 1)) with (S (Z.to_nat n)) by lia.
  rewrite seq_S, fmap_app. simpl. by rewrite Z2Nat.id by done.
Qed.

Lemma saved_frames_paths (dir : path) (frames : list image) (i n : Z) :
  (saved_frames dir frames i n).*1 = numbered_frames dir n.
Proof. unfold saved_frames, numbered_frames. by rewrite <- list_fmap_compose. Qed.

Lemma written_to_snoc (f : filesystem) (files : list (path * image)) (p : path) (im : image) :
  written_to f (files ++ [(p, im)]) = imwrite (written_to f files) p im.
Proof. unfold written_to. by rewrite foldl_snoc. Qed.

(** The frames kept lie within the frames delivered. *)
Lemma ceil_div_within (t i k : Z) : 0 < i → 0 ≤ k < ceil_div t i → k * i < t.
Proof.
  intros Hi [Hk Hlt]. unfold ceil_div in Hlt.
  pose proof (Z.mul_div_le (t + i - 1) i Hi) as Hle. nia.
Qed.

Lemma extract_loop_spec (dir : path) (i : Z) (max_frames : option Z) (total : Z)
    (all pending : list image) (c : Z) (acc : extraction) (f0 f : filesystem) :
  0 < i → 0 ≤ c →
  (pending ≠ [] → total ≠ 0) →
  (∀ m, max_frames = Some m → ceil_div c i < m) →
  pending = drop (Z.to_nat c) all →
  ex_reads acc = c →
  ex_paths acc = numbered_frames dir (ceil_div c i) →
  ex_picked acc = multiples i (ceil_div c i) →
  f = written_to f0 (saved_frames dir all i (ceil_div c i)) →
  let available := ceil_div (c + Z.of_nat (length pending)) i in
  let kept := capped max_frames available in
  ∃ acc' f',
    extract_loop dir i max_frames total pending c (ceil_div c i) acc f = (Ok acc', f') ∧
    ex_paths acc' = numbered_frames dir kept ∧
    ex_picked acc' = multiples i kept ∧
    ex_reads acc' = match max_frames with
                    | Some m => if decide (m ≤ available) then (m - 1) * i + 1
                                else c + Z.of_nat (length pending)
                    | None => c + Z.of_nat (length pending)
                    end ∧
    f' = written_to f0 (saved_frames dir all i kept).
Proof.
  intros Hi. revert c acc f.
  induction pending as [|frame rest IH];
    intros c acc f Hc Htotal Hcap Hpending Hreads Hpaths Hpicked Hfs.
  - cbn [length extract_loop]. rewrite Z.add_0_r. exists acc, f.
    destruct max_frames as [m|]; cbn [capped].
    + specialize (Hcap m eq_refl). rewrite Z.min_r by lia.
      rewrite decide_False by lia. done.
    + done.
  - cbn [extract_loop]. cbv zeta.
    assert (Ht : total ≠ 0) by (by apply Htotal).
    assert (Hraise : progress_line_raises (c + 1) total = false).
    { unfold progress_line_raises. apply bool_decide_eq_false. tauto. }
    assert (Hframe : all !!! Z.to_nat c = frame).
    { apply list_lookup_total_correct.
      rewrite <- (Nat.add_0_r (Z.to_nat c)), <- lookup_drop, <- Hpending. done. }
    assert (Hrest : rest = drop (Z.to_nat (c + 1)) all).
    { replace (Z.to_nat (c + 1)) with (S (Z.to_nat c)) by lia.
      assert (Hl : all !! Z.to_nat c = Some frame).
      { rewrite <- (Nat.add_0_r (Z.to_nat c)), <- lookup_drop, <- Hpending. done. }
      rewrite (drop_S _ _ _ Hl) in Hpending. by injection Hpending. }
    rewrite decide_False by lia.
    replace (c + Z.of_nat (length (frame :: rest)))
      with (c + 1 + Z.of_nat (length rest)) by (cbn [length]; lia).
    pose proof (ceil_div_nonneg c i Hi Hc) as Hk.
    destruct (decide (c mod i = 0)) as [Hm|Hm].
    + destruct (ceil_div_multiple c i Hi Hm) as [Hck Hnext].
      assert (Hsaved : imwrite f (path_join dir (frame_filename (ceil_div c i))) frame
                       = written_to f0 (saved_frames dir all i (ceil_div c i + 1))).
      { rewrite saved_frames_snoc, written_to_snoc, Hck, Hframe, <- Hfs by done. done. }
      destruct (cap_reached max_frames (ceil_div c i + 1)) eqn:Hreached.
      * (* the cap is reached at this frame *)
        destruct max_frames as [m|]; [|done]. cbn [cap_reached] in Hreached.
        apply bool_decide_eq_true in Hreached. specialize (Hcap m eq_refl).
        assert (m = ceil_div c i + 1) as -> by lia.
        assert (Hav : ceil_div c i + 1 ≤ ceil_div (c + 1 + Z.of_nat (length rest)) i).
        { rewrite <- Hnext. apply ceil_div_mono; lia. }
        eexists _, _. split; [reflexivity|]. cbn [ex_paths ex_picked ex_reads capped].
        rewrite Z.min_l by lia. rewrite decide_True by lia.
        rewrite numbered_frames_snoc, multiples_snoc by done.
        rewrite Hpaths, Hpicked, Hreads. split; [done|]. split; [by rewrite Hck|].
        split; [lia|]. exact Hsaved.
      * rewrite Hraise.
        edestruct (IH (c + 1)
          (Extraction (ex_paths acc ++ [path_join dir (frame_filename (ceil_div c i))])
                      (ex_picked acc ++ [c]) (ex_reads acc + 1))
          (imwrite f (path_join dir (frame_filename (ceil_div c i))) frame))
          as (acc' & f' & Hrun & Hres); cbn [ex_paths ex_picked ex_reads].
        -- lia.
        -- done.
        -- intros m ->. cbn [cap_reached] in Hreached.
           apply bool_decide_eq_false in Hreached. lia.
        -- exact Hrest.
        -- lia.
        -- rewrite Hnext, numbered_frames_snoc, Hpaths by done. done.
        -- rewrite Hnext, multiples_snoc, Hpicked, Hck by done. done.
        -- by rewrite Hnext.
        -- rewrite Hnext in Hrun. exists acc', f'. split; [exact Hrun|]. exact Hres.
    + pose proof (ceil_div_between c i Hi Hm) as Hnext.
      rewrite Hraise.
      edestruct (IH (c + 1) (Extraction (ex_paths acc) (ex_picked acc) (ex_reads acc + 1)) f)
        as (acc' & f' & Hrun & Hres); cbn [ex_paths ex_picked ex_reads].
      * lia.
      * done.
      * intros m Hmx. rewrite Hnext. by apply Hcap.
      * exact Hrest.
      * lia.
      * by rewrite Hnext.
      * by rewrite Hnext.
      * by rewrite Hnext.
      * rewrite Hnext in Hrun. exists acc', f'. split; [exact Hrun|]. exact Hres.
Qed.

(** *** The whole of extract_frames *)

Lemma extract_frames_full_run (vp : VideoProcessor) (video_path dir : path)
    (cap : video) (frame_rate : option float) (max_frames : option Z) (w : world)
    (interval : Z) (ex : extraction) (f' : filesystem) :
  fs w !! video_path = Some (File (Video cap)) →
  (ensure_directory dir (fs w)).1 = Ok tt →
  extract_interval_of (video_fps cap) frame_rate = Ok interval →
  extract_loop dir interval max_frames (total_frames cap) (frames cap) 0 0
    (Extraction [] [] 0) (ensure_directory dir (fs w)).2 = (Ok ex, f') →
  extract_frames_full vp video_path (Some dir) frame_rate max_frames w
  = (Ok ex, World f' (S (S (clock w))) (entropy w) (pool_schedule w) (net w)).
Proof.
  intros Hvideo Hdir Hint Hloop.
  pose proof (mkdir_parents_keeps [] dir (fs w) video_path _ Hvideo) as Hkept.
  fold (ensure_directory dir (fs w)) in Hkept.
  destruct (ensure_directory dir (fs w)) as [r f1] eqn:Hens. simpl in Hdir, Hkept, Hloop.
  subst r. destruct w as [f c e s n]. simpl in *.
  unfold extract_frames_full, mbind, W_bind, mret, W_ret, time_time, read_fs, on_fs,
    open_video, path_exists, with_fs. simpl.
  rewrite Hvideo. simpl. rewrite Hens. simpl. rewrite Hkept. simpl. rewrite Hint. simpl.
  rewrite Hloop. reflexivity.
Qed.

(** What [extract_frames] does at an interval of at least 1, however
    the interval came about. *)
Lemma extract_frames_full_spec (vp : VideoProcessor) (video_path dir : path)
    (cap : video) (frame_rate : option float) (max_frames : option Z) (w : world)
    (interval : Z) :
  fs w !! video_path = Some (File (Video cap)) →
  (ensure_directory dir (fs w)).1 = Ok tt →
  (frames cap ≠ [] → total_frames cap ≠ 0) →
  extract_interval_of (video_fps cap) frame_rate = Ok interval →
  1 ≤ interval →
  (∀ m, max_frames = Some m → 1 ≤ m) →
  let delivered := Z.of_nat (length (frames cap)) in
  let available := ceil_div delivered interval in
  let kept := capped max_frames available in
  ∃ ex w',
    extract_frames_full vp video_path (Some dir) frame_rate max_frames w = (Ok ex, w') ∧
    0 ≤ kept ∧
    (∀ k, 0 ≤ k < kept → k * interval < delivered) ∧
    ex_paths ex = numbered_frames dir kept ∧
    ex_picked ex = multiples interval kept ∧
    fs w' = written_to (ensure_directory dir (fs w)).2
              (saved_frames dir (frames cap) interval kept) ∧
    ex_reads ex = match max_frames with
                  | Some m => if decide (m ≤ available) then (m - 1) * interval + 1
                              else delivered
                  | None => delivered
                  end.
Proof.
  intros Hvideo Hdir Htotal Hint Hi' Hcap delivered available kept.
  assert (Hi : 0 < interval) by lia.
  destruct (extract_loop_spec dir interval max_frames (total_frames cap) (frames cap)
              (frames cap) 0 (Extraction [] [] 0) (ensure_directory dir (fs w)).2
              (ensure_directory dir (fs w)).2)
    as (ex & f' & Hloop & Hpaths & Hpicked & Hreads & Hfs).
  - exact Hi.
  - lia.
  - exact Htotal.
  - intros m Hm. rewrite ceil_div_0 by done. specialize (Hcap m Hm). lia.
  - done.
  - reflexivity.
  - by rewrite ceil_div_0.
  - by rewrite ceil_div_0.
  - by rewrite ceil_div_0.
  - rewrite ceil_div_0 in Hloop by done.
    rewrite Z.add_0_l in Hpaths, Hpicked, Hreads, Hfs.
    fold delivered available kept in Hpaths, Hpicked, Hreads, Hfs.
    exists ex, (World f' (S (S (clock w))) (entropy w) (pool_schedule w) (net w)).
    split; [by apply (extract_frames_full_run vp video_path dir cap frame_rate
                       max_frames w interval)|].
    pose proof (ceil_div_nonneg delivered interval Hi ltac:(lia)) as Hav.
    fold available in Hav.
    assert (Hle : kept ≤ available).
    { unfold kept, capped. destruct max_frames as [m|]; lia. }
    split.
    { unfold kept, capped. destruct max_frames as [m|]; [|done].
      specialize (Hcap m eq_refl). lia. }
    split.
    { intros k Hk. apply ceil_div_within; [done|]. fold available. lia. }
    done.
Qed.

(** The interval when the requested rate is below the rate of the
    video: the quotient of the two floats, truncated. *)
Lemma extract_interval_of_below (fps frame_rate quotient : float) (interval : Z) :
  SFltb frame_rate fps = true →
  float_div fps frame_rate = Ok quotient →
  int_of_float quotient = Ok interval →
  extract_interval_of fps (Some frame_rate) = Ok interval.
Proof.
  intros Hlt Hdiv Hint. unfold extract_interval_of. rewrite Hlt, Hdiv. exact Hint.
Qed.

(** Claim C5, amended. For a requested rate [R] below the rate [F] of
    the video whose interval [I = int(F / R)] (the quotient of the two
    floats, rounded as a float and then truncated) is at least 1, an
    output directory that can be created, a frame count reported by the
    container that is not 0 and a cap [M], if given, of at least 1:
    [extract_frames] keeps [min(M, ceil(T / I))] frames ([ceil(T / I)]
    without a cap), where [T] is the number of frames the decoder
    delivers; the frames kept are the source frames [0, I, 2 I, ...] in
    this order, each written with [cv2.imwrite] under the next of the
    names [frame_000000.png], [frame_000001.png], ...; and once the cap
    is reached nothing more is read: the decoder has delivered
    [(M - 1) I + 1] frames. *)
Theorem extract_frames_sampling (vp : VideoProcessor) (video_path dir : path)
    (cap : video) (frame_rate quotient : float) (max_frames : option Z) (w : world)
    (interval : Z) :
  fs w !! video_path = Some (File (Video cap)) →
  (ensure_directory dir (fs w)).1 = Ok tt →
  (frames cap ≠ [] → total_frames cap ≠ 0) →
  SFltb frame_rate (video_fps cap) = true →
  float_div (video_fps cap) frame_rate = Ok quotient →
  int_of_float quotient = Ok interval →
  1 ≤ interval →
  (∀ m, max_frames = Some m → 1 ≤ m) →
  let delivered := Z.of_nat (length (frames cap)) in
  let available := ceil_div delivered interval in
  let kept := capped max_frames available in
  ∃ ex w',
    extract_frames_full vp video_path (Some dir) (Some frame_rate) max_frames w = (Ok ex, w') ∧
    Z.of_nat (length (ex_paths ex)) = kept ∧
    ex_paths ex = numbered_frames dir kept ∧
    ex_picked ex = multiples interval kept ∧
    (∀ (j k : nat) (a b : Z), (j < k)%nat →
       ex_picked ex !! j = Some a → ex_picked ex !! k = Some b → a < b) ∧
    (∀ k, 0 ≤ k < kept → k * interval < delivered) ∧
    fs w' = written_to (ensure_directory dir (fs w)).2
              (saved_frames dir (frames cap) interval kept) ∧
    ex_reads ex = match max_frames with
                  | Some m => if decide (m ≤ available) then (m - 1) * interval + 1
                              else delivered
                  | None => delivered
                  end.
Proof.
  intros Hvideo Hdir Htotal Hlt Hdiv Hquot Hi Hcap delivered available kept.
  destruct (extract_frames_full_spec vp video_path dir cap (Some frame_rate) max_frames w
              interval Hvideo Hdir Htotal
              (extract_interval_of_below _ _ _ _ Hlt Hdiv Hquot) Hi Hcap)
    as (ex & w' & Hrun & Hkept & Hwithin & Hpaths & Hpicked & Hfs & Hreads).
  fold delivered available kept in Hkept, Hwithin, Hpaths, Hpicked, Hfs, Hreads.
  exists ex, w'. split; [exact Hrun|].
  split; [rewrite Hpaths; unfold numbered_frames; rewrite length_fmap, length_seq; lia|].
  split; [exact Hpaths|]. split; [exact Hpicked|].
  split; [|done].
  intros j k a b Hjk. rewrite Hpicked. apply multiples_increasing; [lia|done].
Qed.

(** Seven frames at 30 frames per second, a requested rate of 10 and a
    cap of 2: the interval is 3, the frames 0 and 3 are saved, and the
    fourth frame is the last one read. *)
Lemma extract_frames_sampling_witness :
  let w := sample_world 7 [] sample_remote in
  ∃ ex w',
    extract_frames_full sample_processor ["input.mp4"] (Some ["frames"])
      (Some (float_of_Z 10)) (Some 2) w = (Ok ex, w') ∧
    Z.of_nat (length (ex_paths ex)) = 2 ∧
    ex_paths ex = [["frames"; "frame_000000.png"]; ["frames"; "frame_000001.png"]] ∧
    ex_picked ex = [0; 3] ∧
    (∀ (j k : nat) (a b : Z), (j < k)%nat →
       ex_picked ex !! j = Some a → ex_picked ex !! k = Some b → a < b) ∧
    (∀ k, 0 ≤ k < 2 → k * 3 < 7) ∧
    fs w' = written_to (ensure_directory ["frames"] (fs w)).2
              [(["frames"; "frame_000000.png"], Img 240 320 (Source 0));
               (["frames"; "frame_000001.png"], Img 240 320 (Source 3))] ∧
    ex_reads ex = 4.
Proof.
  refine (extract_frames_sampling sample_processor ["input.mp4"] ["frames"]
           (sample_video 7) (float_of_Z 10) (float_of_Z 3) (Some 2)
           (sample_world 7 [] sample_remote) 3 _ _ _ _ _ _ _ _).
  - reflexivity.
  - reflexivity.
  - intros _. vm_compute. discriminate.
  - reflexivity.
  - reflexivity.
  - reflexivity.
  - lia.
  - intros m Hm. injection Hm as <-. lia.
Defined.

(** Claim C5: with a cap of 0 the first frame is still written, where
    the claimed count is [min(0, ceil(T / I)) = 0]. *)
Lemma extract_frames_cap_zero :
  (extract_frames sample_processor ["input.mp4"] (Some ["frames"]) (Some (float_of_Z 10))
     (Some 0) six_frames_world).1 = Ok [["frames"; "frame_000000.png"]] ∧
  extract_interval_of fps30 (Some (float_of_Z 10)) = Ok 3 ∧
  Z.min 0 (ceil_div 6 3) = 0.
Proof. vm_compute. repeat split. Qed.

(** The quotient is the one of the floats: 30.0 / 3.3333333333333335
    is 9.0, although the exact quotient of the two numbers lies below 9;
    the interval is 9. *)
Lemma extract_interval_rounded :
  let rate := S754_finite false 7505999378950827 (-51) in
  float_div fps30 rate = Ok (float_of_Z 9) ∧
  extract_interval_of fps30 (Some rate) = Ok 9 ∧
  30 * 2 ^ 51 < 9 * 7505999378950827.
Proof. vm_compute. repeat split. Qed.

(** ** A video without frames *)




Lemma get_video_info_video (vp : VideoProcessor) (video_path : path) (cap : video)
    (w : world) :
  fs w !! video_path = Some (File (Video cap)) →
  get_video_info vp video_path w
  = (Ok {| info_width := video_width cap; info_height := video_height cap;
           info_fps := video_fps cap; info_frame_count := total_frames cap |}, w).
Proof.
  intros H. unfold get_video_info, mbind, W_bind, read_fs, open_video, path_exists.
  rewrite H. cbn [negb]. cbv beta. rewrite H. reflexivity.
Qed.











Lemma on_fs_ensure_directory_keeps (dir p : path) (x : node) (w w' : world) r :
  on_fs (ensure_directory dir) w = (r, w') → fs w !! p = Some x → fs w' !! p = Some x.
Proof.
  unfold on_fs. intros E Hp.
  pose proof (mkdir_parents_keeps [] dir (fs w) p _ Hp) as Hkept.
  fold (ensure_directory dir (fs w)) in Hkept.
  destruct (ensure_directory dir (fs w)) as [r1 f1]. injection E as _ <-. exact Hkept.
Qed.






Lemma wp_get_video_info (vp : VideoProcessor) (video_path : path) (cap : video)
    (m : manager) (w : world) post :
  fs w !! video_path = Some (File (Video cap)) →
  post (Ok {| info_width := video_width cap; info_height := video_height cap;
              info_fps := video_fps cap; info_frame_count := total_frames cap |}) m w [] →
  wp (lift (get_video_info vp video_path)) m w post.
Proof.
  intros Hvideo H. apply wp_lift. intros r w' E.
  rewrite (get_video_info_video vp _ cap w Hvideo) in E. by injection E as <- <-.
Qed.






(** * Further properties of the code

    ** utils/file_utils.py *)


Lemma mkdir_parents_file_in_the_way (above : path) (below : list string) (f : filesystem) :
  is_ok (mkdir_parents above below f).1 = true →
  ∀ (q : path) (c : content),
    above `prefix_of` q → q ≠ above → q `prefix_of` above ++ below → f !! q ≠ Some (File c).
Proof.
  intros Hok q c Ha Hne Hq Hfile.
  assert (Hok' : (mkdir_parents above below f).1 = Ok tt).
  { destruct (mkdir_parents above below f).1 as [[]|]; done. }
  pose proof (mkdir_parents_dirs above below f q Hok' Ha Hne Hq) as Hdir.
  pose proof (mkdir_parents_keeps above below f q _ Hfile) as Hkept.
  congruence.
Qed.

(** A successful [ensure_directory] leaves a directory at the path
    and at every component on the way to it, and keeps every entry that
    was there. *)
Theorem ensure_directory_creates (p : path) (f : filesystem) :
  p ≠ [] →
  (ensure_directory p f).1 = Ok tt →
  let f' := (ensure_directory p f).2 in
  is_dir f' p = true ∧
  (∀ q, q ≠ [] → q `prefix_of` p → f' !! q = Some Dir) ∧
  (∀ q x, f !! q = Some x → f' !! q = Some x).
Proof.
  intros Hp Hok f'. subst f'.
  assert (Hdirs : ∀ q, q ≠ [] → q `prefix_of` p → (ensure_directory p f).2 !! q = Some Dir).
  { intros q Hq Hpre. apply mkdir_parents_dirs; [done| |done|done]. by exists q. }
  split; [|split].
  - unfold is_dir. by rewrite Hdirs.
  - exact Hdirs.
  - intros q x. apply mkdir_parents_keeps.
Qed.

Lemma ensure_directory_creates_witness :
  let f' := (ensure_directory ["temp"; "frames"] (fs (sample_world 3 [] sample_remote))).2 in
  is_dir f' ["temp"; "frames"] = true ∧
  (∀ q, q ≠ [] → q `prefix_of` ["temp"; "frames"] → f' !! q = Some Dir) ∧
  (∀ q x, fs (sample_world 3 [] sample_remote) !! q = Some x → f' !! q = Some x).
Proof.
  apply (ensure_directory_creates ["temp"; "frames"] (fs (sample_world 3 [] sample_remote))).
  - discriminate.
  - reflexivity.
Defined.

(** Calling [ensure_directory] again on the same path changes
    nothing and succeeds ([exist_ok=True]). *)
Theorem ensure_directory_idempotent (p : path) (f : filesystem) :
  (ensure_directory p f).1 = Ok tt →
  ensure_directory p (ensure_directory p f).2 = (Ok tt, (ensure_directory p f).2).
Proof.
  intros Hok. apply mkdir_parents_existing. intros q Hq1 Hq2 Hq3.
  by apply mkdir_parents_dirs.
Qed.

Lemma ensure_directory_idempotent_witness :
  let f := fs (sample_world 3 [] sample_remote) in
  ensure_directory ["temp"; "frames"] (ensure_directory ["temp"; "frames"] f).2
  = (Ok tt, (ensure_directory ["temp"; "frames"] f).2).
Proof.
  apply (ensure_directory_idempotent ["temp"; "frames"] (fs (sample_world 3 [] sample_remote))).
  reflexivity.
Defined.

Lemma mkdir_parents_free (above : path) (below : list string) (f : filesystem) :
  (∀ (q : path) (c : content),
     above `prefix_of` q → q ≠ above → q `prefix_of` above ++ below →
     f !! q ≠ Some (File c)) →
  (mkdir_parents above below f).1 = Ok tt.
Proof.
  revert above f. induction below as [|c below IH]; intros above f Hfree; simpl; [done|].
  assert (Hq : above ++ [c] `prefix_of` above ++ c :: below).
  { exists below. by rewrite <- app_assoc. }
  assert (Ha : above `prefix_of` above ++ [c]) by (by exists [c]).
  assert (Hne : above ++ [c] ≠ above).
  { intros H. apply (f_equal length) in H. rewrite length_app in H. simpl in H. lia. }
  assert (Hup : ∀ q, above ++ [c] `prefix_of` q → q ≠ above).
  { intros q Hq1 ->. apply Hne. by apply (anti_symm prefix). }
  destruct (f !! (above ++ [c])) as [[|content]|] eqn:E.
  - apply IH. intros q content Hq1 Hq2 Hq3. apply Hfree; [by etrans|by apply Hup|].
    by rewrite <- app_assoc in Hq3.
  - by destruct (Hfree (above ++ [c]) content Ha Hne Hq).
  - apply IH. intros q content Hq1 Hq2 Hq3.
    rewrite lookup_insert_ne by done. apply Hfree; [by etrans|by apply Hup|].
    by rewrite <- app_assoc in Hq3.
Qed.

(** [ensure_directory] succeeds exactly when no regular file sits
    at the path or at a component on the way to it. *)
Theorem ensure_directory_succeeds_iff (p : path) (f : filesystem) :
  is_ok (ensure_directory p f).1 = true ↔
  ∀ (q : path) (c : content), q ≠ [] → q `prefix_of` p → f !! q ≠ Some (File c).
Proof.
  split.
  - intros Hok q c Hq Hpre. apply (mkdir_parents_file_in_the_way [] p f Hok); [|done|done].
    by exists q.
  - intros Hfree. unfold ensure_directory. rewrite mkdir_parents_free; [done|].
    intros q c _ Hq Hpre. by apply Hfree.
Qed.

(** [remove_directory] with [ignore_errors] never raises; a
    directory goes away with everything below it, nothing else is
    touched, and a regular file given in its place is left alone. *)
Theorem remove_directory_clears (d : path) (f : filesystem) :
  let o := remove_directory d true f in
  o.1 = Ok tt ∧
  (f !! d = Some Dir → ∀ p, d `prefix_of` p → o.2 !! p = None) ∧
  (∀ p, ¬ d `prefix_of` p → o.2 !! p = f !! p) ∧
  (∀ c, f !! d = Some (File c) → o.2 = f).
Proof.
  intros o. subst o. split; [apply remove_directory_ok|].
  unfold remove_directory, rmtree, path_exists.
  destruct (f !! d) as [[|c]|] eqn:E; cbn [fst snd].
  - split; [|split].
    + intros _ p Hp. apply map_lookup_filter_None. right. intros x _ Hn. by apply Hn.
    + intros p Hp. destruct (f !! p) as [x|] eqn:Ep.
      * by apply map_lookup_filter_Some.
      * apply map_lookup_filter_None. by left.
    + intros c [=].
  - split; [done|]. split; [done|]. done.
  - split; [done|]. split; [done|]. done.
Qed.

(** [safe_copy] with the default [overwrite=False] copies nothing
    unless the source is a regular file and the destination is free;
    when it copies, the destination holds the content of the source and
    every entry that was there is kept. When the parent of a free
    destination cannot be made, the exception of [ensure_directory]
    comes out of [safe_copy], and nothing has been copied. *)
Theorem safe_copy_never_overwrites (src dst : path) (f : filesystem) :
  let o := safe_copy src dst f in
  (is_file f src = false → o = (Ok false, f)) ∧
  (path_exists f dst = true → o = (Ok false, f)) ∧
  (∀ c, f !! src = Some (File c) → path_exists f dst = false →
        (ensure_directory (dirname dst) f).1 = Ok tt →
        o.1 = Ok true ∧ o.2 !! dst = Some (File c) ∧
        ∀ q x, f !! q = Some x → o.2 !! q = Some x) ∧
  (∀ c e, f !! src = Some (File c) → path_exists f dst = false →
        (ensure_directory (dirname dst) f).1 = Raise e →
        o.1 = Raise e ∧ o.2 !! dst = None ∧
        ∀ q x, f !! q = Some x → o.2 !! q = Some x).
Proof.
  intros o. subst o. unfold safe_copy, is_file. split; [|split; [|split]].
  - by destruct (f !! src) as [[|c]|].
  - intros ->. by destruct (f !! src) as [[|c]|].
  - intros c -> Hdst Hdir. rewrite Hdst.
    pose proof (mkdir_parents_keeps [] (dirname dst) f) as Hkeeps.
    fold (ensure_directory (dirname dst) f) in Hkeeps.
    destruct (ensure_directory (dirname dst) f) as [r f1]. cbn [fst snd] in *. subst r.
    cbv beta iota. cbn [fst snd].
    split; [done|]. split; [by rewrite lookup_insert_eq|].
    intros q x Hq. rewrite lookup_insert_ne; [by apply Hkeeps|].
    intros <-. unfold path_exists in Hdst. by rewrite Hq in Hdst.
  - intros c e -> Hdst Hdir. rewrite Hdst.
    pose proof (mkdir_parents_keeps [] (dirname dst) f) as Hkeeps.
    pose proof (mkdir_parents_new [] (dirname dst) f dst) as Hnew.
    fold (ensure_directory (dirname dst) f) in Hkeeps, Hnew.
    destruct (ensure_directory (dirname dst) f) as [r f1] eqn:Hens.
    cbn [fst snd] in *. subst r. cbv beta iota. cbn [fst snd].
    split; [done|]. split; [|exact Hkeeps].
    destruct (f1 !! dst) as [x|] eqn:E; [|done].
    destruct (Hnew x eq_refl) as [H|(_ & _ & H)].
    + unfold path_exists in Hdst. by rewrite H in Hdst.
    + destruct (decide (dst = [])) as [->|Hne]; [done|].
      rewrite (app_removelast_last "" Hne) in H at 1.
      by apply path_join_not_prefix in H.
Qed.

(** A regular file on the way to the destination: the copy raises. *)
Lemma safe_copy_raises_example :
  let f : filesystem := {[ ["a.png"] := File Blob; ["out"] := File Blob ]} in
  (safe_copy ["a.png"] ["out"; "a.png"] f).1 = Raise FileExistsError.
Proof. vm_compute. reflexivity. Qed.

(** [safe_move] with the default [overwrite=False] moves nothing
    unless the source is a regular file and the destination is free;
    when it moves, the source is gone, the destination holds its
    content and every other entry is kept. *)
Theorem safe_move_moves (src dst : path) (f : filesystem) :
  let o := safe_move src dst f in
  (is_file f src = false → o = (Ok false, f)) ∧
  (path_exists f dst = true → o = (Ok false, f)) ∧
  (∀ c, f !! src = Some (File c) → path_exists f dst = false →
        (ensure_directory (dirname dst) f).1 = Ok tt →
        o.1 = Ok true ∧ o.2 !! src = None ∧ o.2 !! dst = Some (File c) ∧
        ∀ q x, q ≠ src → f !! q = Some x → o.2 !! q = Some x).
Proof.
  intros o. subst o. unfold safe_move, is_file. split; [|split].
  - by destruct (f !! src) as [[|c]|].
  - intros ->. by destruct (f !! src) as [[|c]|].
  - intros c Hsrc Hdst Hdir. rewrite Hsrc, Hdst.
    pose proof (mkdir_parents_keeps [] (dirname dst) f) as Hkeeps.
    fold (ensure_directory (dirname dst) f) in Hkeeps.
    destruct (ensure_directory (dirname dst) f) as [r f1]. cbn [fst snd] in *. subst r.
    cbv beta iota. cbn [fst snd].
    assert (Hne : dst ≠ src).
    { intros ->. unfold path_exists in Hdst. by rewrite Hsrc in Hdst. }
    split; [done|]. split; [|split].
    + rewrite lookup_insert_ne by done. apply lookup_delete_eq.
    + by rewrite lookup_insert_eq.
    + intros q x Hq Hfq. rewrite lookup_insert_ne.
      * rewrite lookup_delete_ne by done. by apply Hkeeps.
      * intros <-. unfold path_exists in Hdst. by rewrite Hfq in Hdst.
Qed.

Lemma omap_NoDup {A B} (g : A → option B) (l : list A) :
  (∀ x y b, x ∈ l → y ∈ l → g x = Some b → g y = Some b → x = y) →
  NoDup l → NoDup (omap g l).
Proof.
  intros Hinj Hl. induction Hl as [|x l Hx Hl IH]; [constructor|].
  change (omap g (x :: l)) with (match g x with Some b => b :: omap g l | None => omap g l end).
  assert (IH' : NoDup (omap g l)).
  { apply IH. intros a b c Ha Hb. apply Hinj; by right. }
  destruct (g x) as [b|] eqn:E; [|done].
  constructor; [|done]. intros (y & Hy & Hgy)%list_elem_of_omap.
  assert (x = y) as <-; [|done].
  apply (Hinj x y b); [by left|by right|done|done].
Qed.

Lemma entry_in_Some (d : path) (kv : path * node) (name : string) :
  entry_in d kv = Some name ↔ (∃ c, kv.2 = File c) ∧ kv.1 = path_join d name.
Proof.
  unfold entry_in, path_join, dirname, basename. destruct kv as [q [|c]]; simpl.
  - split; [done|]. by intros [[c [=]] _].
  - destruct (decide (q ≠ [] ∧ removelast q = d)) as [[Hq <-]|Hn].
    + split.
      * intros [= <-]. split; [eauto|]. by apply app_removelast_last.
      * intros [_ H]. f_equal.
        rewrite (app_removelast_last "" Hq) in H at 1. by apply app_inv_head in H as [= ->].
    + split; [done|]. intros [_ ->]. destruct Hn. split.
      * by destruct d.
      * by rewrite removelast_last.
Qed.

(** The files [upload_video_frames] iterates over: the regular
    files directly inside the directory, each one once, ordered by
    name. *)
Theorem sorted_files_spec (f : filesystem) (d : path) :
  ∃ names,
    sorted_files f d = path_join d <$> names ∧
    StronglySorted String.le names ∧
    NoDup names ∧
    ∀ name, name ∈ names ↔ is_file f (path_join d name) = true.
Proof.
  exists (merge_sort String.le (omap (entry_in d) (map_to_list f))).
  split; [done|]. split; [apply StronglySorted_merge_sort; apply _|].
  split.
  - rewrite merge_sort_Permutation. apply omap_NoDup; [|apply NoDup_map_to_list].
    intros [q1 x1] [q2 x2] b H1 H2 [_ E1]%entry_in_Some [_ E2]%entry_in_Some.
    simpl in E1, E2. subst q1 q2.
    apply elem_of_map_to_list in H1, H2. congruence.
  - intros name. rewrite merge_sort_Permutation, list_elem_of_omap. unfold is_file. split.
    + intros ([q x] & Hkv & [[c Hc] Hq]%entry_in_Some). simpl in Hc, Hq. subst q x.
      apply elem_of_map_to_list in Hkv. by rewrite Hkv.
    + destruct (f !! path_join d name) as [[|c]|] eqn:E; try done. intros _.
      exists (path_join d name, File c). split; [by apply elem_of_map_to_list|].
      apply entry_in_Some. eauto.
Qed.

(** ** video/processor.py *)

Lemma SFltb_zero_sign (sign : bool) (x : float) :
  SFltb (S754_zero sign) x = SFltb (S754_zero false) x.
Proof. by destruct x. Qed.

(** The ways [extract_frames] fails before reading a frame: a
    missing input raises FileNotFoundError and touches nothing; a frame
    rate of 0 below the video's rate raises ZeroDivisionError. *)
Theorem extract_frames_errors (vp : VideoProcessor) (video_path dir : path)
    (frame_rate : option float) (max_frames : option Z) (w : world) :
  (path_exists (fs w) video_path = false →
   let o := extract_frames vp video_path (Some dir) frame_rate max_frames w in
   o.1 = Raise FileNotFoundError ∧ fs o.2 = fs w) ∧
  (∀ cap sign, fs w !! video_path = Some (File (Video cap)) →
     (ensure_directory dir (fs w)).1 = Ok tt →
     float_positive (video_fps cap) = true →
     (extract_frames vp video_path (Some dir) (Some (S754_zero sign)) max_frames w).1
     = Raise ZeroDivisionError).
Proof.
  split.
  - intros Hmissing o. subst o.
    unfold extract_frames, extract_frames_full, mbind, W_bind, time_time, read_fs, raise.
    cbn [fs]. rewrite Hmissing. done.
  - intros cap sign Hvideo Hdir Hfps.
    pose proof (mkdir_parents_keeps [] dir (fs w) video_path _ Hvideo) as Hkept.
    fold (ensure_directory dir (fs w)) in Hkept.
    assert (Hint : extract_interval_of (video_fps cap) (Some (S754_zero sign))
                   = Raise ZeroDivisionError).
    { unfold extract_interval_of. unfold float_positive in Hfps.
      by rewrite SFltb_zero_sign, Hfps. }
    destruct (ensure_directory dir (fs w)) as [r1 f1] eqn:Hens. cbn [fst snd] in Hdir, Hkept.
    subst r1. destruct w as [f c e s n]. cbn [fs] in *.
    unfold extract_frames, extract_frames_full, mbind, W_bind, mret, W_ret, time_time,
      read_fs, on_fs, open_video, path_exists, with_fs, raise.
    cbn -[extract_interval_of ensure_directory]. rewrite Hvideo.
    cbn -[extract_interval_of ensure_directory]. rewrite Hens.
    cbn -[extract_interval_of ensure_directory]. rewrite Hkept.
    cbn -[extract_interval_of ensure_directory]. rewrite Hint. reflexivity.
Qed.

Lemma ceil_div_1 (t : Z) : ceil_div t 1 = t.
Proof. unfold ceil_div. rewrite Z.div_1_r. lia. Qed.

(** At interval 1 the files saved are the first frames, in order. *)
Lemma saved_frames_every (dir : path) (frames : list image) (n : nat) :
  (n ≤ length frames)%nat →
  saved_frames dir frames 1 (Z.of_nat n)
  = zip (numbered_frames dir (Z.of_nat n)) (take n frames).
Proof.
  intros Hn. unfold saved_frames, numbered_frames. rewrite Nat2Z.id.
  induction n as [|n IH]; [done|].
  destruct (lookup_lt_is_Some_2 frames n ltac:(lia)) as [frame Hframe].
  rewrite seq_S, !fmap_app, (take_S_r _ _ _ Hframe). cbn [fmap list_fmap Nat.add].
  rewrite zip_with_app by (rewrite length_fmap, length_seq, length_take; lia).
  rewrite IH by lia. cbn [zip_with]. do 3 f_equal.
  apply list_lookup_total_correct. by rewrite Z.mul_1_r, Nat2Z.id.
Qed.

(** No upsampling: when no rate is asked for, or one that is not
    below the video's own, every frame the decoder delivers is saved,
    in order, up to the cap: they are written one after the other under
    the names [frame_000000.png], [frame_000001.png], ... *)
Theorem extract_frames_every_frame (vp : VideoProcessor) (video_path dir : path)
    (cap : video) (frame_rate : option float) (max_frames : option Z) (w : world) :
  fs w !! video_path = Some (File (Video cap)) →
  (ensure_directory dir (fs w)).1 = Ok tt →
  (frames cap ≠ [] → total_frames cap ≠ 0) →
  (∀ r, frame_rate = Some r → SFltb r (video_fps cap) = false) →
  (∀ m, max_frames = Some m → 1 ≤ m) →
  let kept := capped max_frames (Z.of_nat (length (frames cap))) in
  ∃ ex w',
    extract_frames_full vp video_path (Some dir) frame_rate max_frames w = (Ok ex, w') ∧
    ex_paths ex = numbered_frames dir kept ∧
    ex_picked ex = Z.of_nat <$> seq 0 (Z.to_nat kept) ∧
    fs w' = written_to (ensure_directory dir (fs w)).2
              (zip (numbered_frames dir kept) (take (Z.to_nat kept) (frames cap))).
Proof.
  intros Hvideo Hdir Htotal Hrate Hcap kept.
  assert (Hint : extract_interval_of (video_fps cap) frame_rate = Ok 1).
  { unfold extract_interval_of. destruct frame_rate as [r|]; [|done].
    by rewrite (Hrate r eq_refl). }
  destruct (extract_frames_full_spec vp video_path dir cap frame_rate max_frames w 1
              Hvideo Hdir Htotal Hint ltac:(lia) Hcap)
    as (ex & w' & Hrun & Hkept & _ & Hpaths & Hpicked & Hfs & _).
  rewrite ceil_div_1 in Hkept, Hpaths, Hpicked, Hfs. fold kept in Hkept, Hpaths, Hpicked, Hfs.
  exists ex, w'. split; [exact Hrun|]. split; [exact Hpaths|]. split.
  - rewrite Hpicked. unfold multiples. apply list_fmap_ext. intros _ k _. lia.
  - rewrite Hfs. f_equal.
    rewrite <- (Z2Nat.id kept) at 1 2 by done. apply saved_frames_every.
    unfold kept, capped. destruct max_frames as [m|]; lia.
Qed.

Lemma extract_frames_every_frame_witness :
  let w := sample_world 3 [] sample_remote in
  ∃ ex w',
    extract_frames_full sample_processor ["input.mp4"] (Some ["frames"])
      (Some (float_of_Z 60)) (Some 2) w = (Ok ex, w') ∧
    ex_paths ex = [["frames"; "frame_000000.png"]; ["frames"; "frame_000001.png"]] ∧
    ex_picked ex = [0; 1] ∧
    fs w' = written_to (ensure_directory ["frames"] (fs w)).2
              [(["frames"; "frame_000000.png"], Img 240 320 (Source 0));
               (["frames"; "frame_000001.png"], Img 240 320 (Source 1))].
Proof.
  refine (extract_frames_every_frame sample_processor ["input.mp4"] ["frames"]
           (sample_video 3) (Some (float_of_Z 60)) (Some 2)
           (sample_world 3 [] sample_remote) _ _ _ _ _).
  - reflexivity.
  - reflexivity.
  - intros _. vm_compute. discriminate.
  - intros r [= <-]. reflexivity.
  - intros m [= <-]. lia.
Defined.






(** A resize to width 0: every frame is dropped. *)
Lemma preprocess_frames_resize_zero :
  (preprocess_frames sample_processor
     [["frames"; "frame_000000.png"]; ["frames"; "frame_000001.png"]]
     (Some ["processed"])
     {| resize := Some (0, 240); normalize := false; grayscale := false;
        enhance_features := false; preserve_details := false |}
     (frames_world [])).1 = Ok [].
Proof. vm_compute. reflexivity. Qed.


(** [get_video_info] only reads: it leaves the world as it is,
    raises FileNotFoundError on a missing path and ValueError on a
    path that [cv2.VideoCapture] does not open (a directory, for
    instance), and reports the properties of what the capture sees
    otherwise: for a video, those of the container. *)
Theorem get_video_info_reads (vp : VideoProcessor) (video_path : path) (w : world) :
  let report (cap : video) :=
    {| info_width := video_width cap; info_height := video_height cap;
       info_fps := video_fps cap; info_frame_count := total_frames cap |} in
  (get_video_info vp video_path w).2 = w ∧
  (get_video_info vp video_path w).1 =
    match fs w !! video_path with
    | None => Raise FileNotFoundError
    | Some Dir => Raise ValueError
    | Some (File (Video cap)) => Ok (report cap)
    | Some (File c) =>
        match decoder vp c with
        | Some cap => Ok (report cap)
        | None => Raise ValueError
        end
    end.
Proof.
  intros report. subst report.
  unfold get_video_info, mbind, W_bind, read_fs, open_video, path_exists, raise, mret, W_ret,
    capture_of.
  destruct (fs w !! video_path) as [[|[]]|] eqn:E; cbn [negb]; cbv beta; rewrite ?E;
    try done; by destruct (decoder vp _).
Qed.

Lemma byte_of_range (a : Ascii.ascii) : 0 ≤ byte_of a < 256.
Proof.
  unfold byte_of. pose proof (Ascii.N_ascii_bounded a). lia.
Qed.

Lemma fourcc_char_byte (fourcc : Z) (i : Z) (a : Ascii.ascii) :
  0 ≤ i → (fourcc / 2 ^ (8 * i)) mod 256 = byte_of a → fourcc_char fourcc i = a.
Proof.
  intros Hi H. unfold fourcc_char.
  change 255 with (Z.ones 8). rewrite Z.land_ones by lia.
  rewrite Z.shiftr_div_pow2 by lia. change (2 ^ 8) with 256. rewrite H.
  unfold byte_of. rewrite N2Z.id. apply Ascii.ascii_N_embedding.
Qed.

(** [_decode_fourcc] undoes the packing of four characters into
    a FOURCC code, least significant byte first; it always yields four
    characters, so its fallback 'unknown' is never the answer. *)
Theorem decode_fourcc_unpacks (a b c d : Ascii.ascii) :
  _decode_fourcc (byte_of a + byte_of b * 2 ^ 8 + byte_of c * 2 ^ 16 + byte_of d * 2 ^ 24)
  = String a (String b (String c (String d EmptyString))) ∧
  ∀ fourcc, String.length (_decode_fourcc fourcc) = 4%nat.
Proof.
  split; [|done].
  pose proof (byte_of_range a). pose proof (byte_of_range b).
  pose proof (byte_of_range c). pose proof (byte_of_range d).
  unfold _decode_fourcc.
  rewrite (fourcc_char_byte _ 0 a), (fourcc_char_byte _ 1 b), (fourcc_char_byte _ 2 c),
    (fourcc_char_byte _ 3 d); try lia; try done.
  - change (2 ^ (8 * 3)) with 16777216. change (2 ^ 8) with 256.
    change (2 ^ 16) with 65536. change (2 ^ 24) with 16777216.
    Z.div_mod_to_equations. lia.
  - change (2 ^ (8 * 2)) with 65536. change (2 ^ 8) with 256.
    change (2 ^ 16) with 65536. change (2 ^ 24) with 16777216.
    Z.div_mod_to_equations. lia.
  - change (2 ^ (8 * 1)) with 256. change (2 ^ 8) with 256.
    change (2 ^ 16) with 65536. change (2 ^ 24) with 16777216.
    Z.div_mod_to_equations. lia.
  - change (2 ^ (8 * 0)) with 1. change (2 ^ 8) with 256.
    change (2 ^ 16) with 65536. change (2 ^ 24) with 16777216.
    Z.div_mod_to_equations. lia.
Qed.

(** ** workflow/replacement_processor.py *)

Lemma process_frame_result (frame_path : path) (rc : replacement_config) (dir : path)
    (w w' : world) (r : path) :
  process_frame frame_path rc dir w = (Ok r, w') → r = path_join dir (basename frame_path).
Proof.
  unfold process_frame, mbind, W_bind, mret, W_ret, on_fs.
  destruct (ensure_directory dir (fs w)) as [[[]|e] f1]; [|done].
  destruct (replacement_types rc) as [|c cs].
  - cbv beta iota zeta. destruct (safe_copy _ _ _) as [[copied|e] f2]; [|done].
    by intros [= <- _].
  - cbv beta iota zeta. destruct (replace_categories _ _ _ _ _ _) as [current f2].
    cbn [fs with_fs]. destruct (safe_copy _ _ _) as [[copied|e] f3]; [|done].
    by intros [= <- _].
Qed.

Lemma process_frames_batch_from_result (frame_paths : list path) (rc : replacement_config)
    (dir : path) (acc : list path) (w w' : world) (processed : list path) :
  process_frames_batch_from frame_paths rc dir acc w = (Ok processed, w') →
  processed = acc ++ ((λ p, path_join dir (basename p)) <$> frame_paths).
Proof.
  revert acc w. induction frame_paths as [|p rest IH]; intros acc w.
  - simpl. intros [= <- _]. by rewrite app_nil_r.
  - cbn [process_frames_batch_from]. unfold mbind, W_bind.
    destruct (process_frame p rc dir w) as [[r|e] w1] eqn:E; [|done].
    apply process_frame_result in E as ->. intros H%IH.
    by rewrite H, <- app_assoc.
Qed.

(** When [process_frames_batch] returns, it returns one path per
    input frame, in the order of the input: entry [i] is the input's
    name under the output directory. *)
Theorem process_frames_batch_in_order (frame_paths : list path) (rc : replacement_config)
    (dir : path) (w : world) (processed : list path) :
  (process_frames_batch frame_paths rc dir w).1 = Ok processed →
  processed = (λ p, path_join dir (basename p)) <$> frame_paths.
Proof.
  unfold process_frames_batch.
  destruct (process_frames_batch_from frame_paths rc dir [] w) as [r w'] eqn:E.
  simpl. intros ->. by apply process_frames_batch_from_result in E.
Qed.

Lemma process_frames_batch_in_order_witness :
  (process_frames_batch [["frames"; "frame_000000.png"]; ["frames"; "frame_000001.png"]]
     {| person := on; background := off; product := off |} ["replaced"]
     (frames_world [])).1
  = Ok [["replaced"; "frame_000000.png"]; ["replaced"; "frame_000001.png"]] ∧
  [["replaced"; "frame_000000.png"]; ["replaced"; "frame_000001.png"]]
  = (λ p, path_join ["replaced"] (basename p))
      <$> [["frames"; "frame_000000.png"]; ["frames"; "frame_000001.png"]].
Proof.
  split; [vm_compute; reflexivity|].
  apply (process_frames_batch_in_order _ {| person := on; background := off; product := off |}
           _ (frames_world [])).
  vm_compute. reflexivity.
Defined.


(** With no replacement enabled [process_frame] is a copy that
    never overwrites: a free output path receives the content of the
    frame, an output path already taken keeps what it holds. *)
Theorem process_frame_plain_copy (frame_path : path) (rc : replacement_config) (dir : path)
    (w : world) (c : content) :
  replacement_types rc = [] →
  (ensure_directory dir (fs w)).1 = Ok tt →
  fs w !! frame_path = Some (File c) →
  let output_path := path_join dir (basename frame_path) in
  let o := process_frame frame_path rc dir w in
  o.1 = Ok output_path ∧
  match fs w !! output_path with
  | Some x => fs o.2 !! output_path = Some x
  | None => fs o.2 !! output_path = Some (File c)
  end.
Proof.
  intros Htypes Hdir Hframe output_path o. subst o.
  pose proof (mkdir_parents_keeps [] dir (fs w)) as Hkeeps.
  pose proof (mkdir_parents_new [] dir (fs w) output_path) as Hnew.
  pose proof (mkdir_parents_dirs [] dir (fs w)) as Hdirs.
  fold (ensure_directory dir (fs w)) in Hkeeps, Hnew, Hdirs.
  unfold process_frame, mbind, W_bind, mret, W_ret, on_fs. rewrite Htypes.
  destruct (ensure_directory dir (fs w)) as [r f1] eqn:Hens. cbn [fst snd] in *. subst r.
  cbv beta iota zeta. cbn [fs with_fs fst snd].
  fold output_path. unfold safe_copy. rewrite (Hkeeps _ _ Hframe).
  destruct (fs w !! output_path) as [x|] eqn:Hout.
  - unfold path_exists. rewrite (Hkeeps _ _ Hout). cbn [fst snd fs with_fs].
    split; [done|]. by apply Hkeeps.
  - assert (Hfree : f1 !! output_path = None).
    { destruct (f1 !! output_path) as [x|] eqn:E; [|done].
      destruct (Hnew x eq_refl) as [H|(_ & _ & H)]; [done|].
      by apply path_join_not_prefix in H. }
    unfold path_exists. rewrite Hfree.
    assert (Hparent : dirname output_path = dir).
    { unfold dirname, output_path, path_join. apply removelast_last. }
    rewrite Hparent.
    assert (Hagain : ensure_directory dir f1 = (Ok tt, f1)).
    { apply mkdir_parents_existing. intros q Hq1 Hq2 Hq3. by apply Hdirs. }
    rewrite Hagain. cbn [fst snd fs with_fs]. split; [done|]. by rewrite lookup_insert_eq.
Qed.

Lemma process_frame_plain_copy_witness :
  let o := process_frame ["frames"; "frame_000000.png"]
             {| person := off; background := off; product := off |} ["replaced"]
             (frames_world []) in
  o.1 = Ok ["replaced"; "frame_000000.png"] ∧
  fs o.2 !! ["replaced"; "frame_000000.png"] = Some (File (Image (Img 240 320 (Source 0)))).
Proof.
  apply (process_frame_plain_copy ["frames"; "frame_000000.png"]
           {| person := off; background := off; product := off |} ["replaced"]
           (frames_world []) (Image (Img 240 320 (Source 0)))); reflexivity.
Defined.

(** ** api/client.py *)

(** [test_connection] never raises and changes nothing: it
    answers [True] exactly when the status request succeeds and reports
    'ok'. *)
Theorem test_connection_never_raises (w : world) :
  (test_connection w).2 = w ∧
  ∃ is_connected, (test_connection w).1 = Ok is_connected ∧
                  (is_connected = true ↔ api_status (net w) = Ok true).
Proof.
  unfold test_connection, on_net. destruct w as [f c e s n]. cbn [net with_net].
  destruct (api_status n) as [[]|err] eqn:E; cbn [fst snd]; (split; [done|]).
  - by exists true.
  - exists false. split; [done|]. split; congruence.
  - exists false. split; [done|]. split; congruence.
Qed.



Lemma poll_until_done_spec (pending : nat) (r : remote) :
  let o := poll_until_done pending r in
  o.1 = match last_poll r with
        | Ok (Completed replaced_frames) => Ok replaced_frames
        | Ok Failed | Ok Canceled => Raise RuntimeError
        | Raise e => Raise e
        end ∧
  (pending_polls o.2 = if pending is O then pending_polls r else O) ∧
  received o.2 = received r ∧ canceled_tasks o.2 = canceled_tasks r.
Proof.
  revert r. induction pending as [|pending IH]; intros r; cbn zeta.
  - simpl. by destruct (last_poll r) as [[]|].
  - cbn [poll_until_done]. specialize (IH (set_pending_polls pending r)). cbn zeta in IH.
    cbn [set_pending_polls last_poll received canceled_tasks pending_polls] in IH.
    destruct IH as (IH1 & IH2 & IH3 & IH4). split; [exact IH1|]. split; [|done].
    rewrite IH2. by destruct pending.
Qed.

(** [wait_for_task_completion] returns only on a final status
    'completed'; 'failed' and 'canceled' raise RuntimeError and a
    transport error is passed on; every pending answer has been polled
    by then, and nothing else changes. *)
Theorem wait_for_task_completion_final (task_id : string) (w : world) :
  let o := wait_for_task_completion task_id w in
  o.1 = match last_poll (net w) with
        | Ok (Completed replaced_frames) => Ok replaced_frames
        | Ok Failed | Ok Canceled => Raise RuntimeError
        | Raise e => Raise e
        end ∧
  pending_polls (net o.2) = O ∧
  received (net o.2) = received (net w) ∧
  fs o.2 = fs w.
Proof.
  intros o. subst o. unfold wait_for_task_completion, on_net.
  pose proof (poll_until_done_spec (pending_polls (net w)) (net w)) as H. cbn zeta in H.
  destruct (poll_until_done _ _) as [r n]. cbn [fst snd] in *.
  destruct H as (H1 & H2 & H3 & _). destruct w as [f c e s nw]. cbn [net with_net fs] in *.
  split; [exact H1|]. split; [|done]. rewrite H2. by destruct (pending_polls nw).
Qed.


(** ** workflow/manager.py *)

Lemma Qltb_true (a b : Q) : Qltb a b = true ↔ (a < b)%Q.
Proof.
  unfold Qltb. rewrite negb_true_iff. split.
  - intros H. apply Qnot_le_lt. intros Hle. apply Qle_bool_iff in Hle. congruence.
  - intros H. apply not_true_is_false. rewrite Qle_bool_iff. by apply Qlt_not_le.
Qed.

Lemma Qltb_false (a b : Q) : Qltb a b = false ↔ (b <= a)%Q.
Proof.
  unfold Qltb. rewrite negb_false_iff. apply Qle_bool_iff.
Qed.

(** [_update_progress] stores a value between 0 and 100 whatever
    it is given, and the value itself when that lies in the range. *)
Theorem update_progress_clamps (p : Q) (m : manager) (w : world) :
  let o := _update_progress p m w in
  (0 <= progress (mgr_after o))%Q ∧ (progress (mgr_after o) <= 100)%Q ∧
  ((0 <= p)%Q → (p <= 100)%Q → (progress (mgr_after o) == p)%Q) ∧
  res o = Ok tt ∧ world_after o = w.
Proof.
  intros o. subst o. unfold _update_progress, assign. cbn [mgr_after res world_after].
  destruct m as [wid st p0 t0 t1 wd inp out fr pfr tid]. cbn [set_progress progress].
  unfold py_min, py_max.
  destruct (Qltb 0 p) eqn:H0; [apply Qltb_true in H0|apply Qltb_false in H0].
  - destruct (Qltb p 100) eqn:H1; [apply Qltb_true in H1|apply Qltb_false in H1].
    + repeat split; try done; by apply Qlt_le_weak.
    + repeat split; try done. intros _ Hp. by apply Qle_antisym.
  - replace (Qltb 0 100) with true by done.
    repeat split; try done. intros Hp _. by apply Qle_antisym.
Qed.

(** [get_status] only reads the session: no attribute is
    assigned and the manager is left as it is; the report carries the
    attributes, and the duration of a finished session is the
    difference of its two time stamps, without looking at the clock. *)
Theorem get_status_reads (m : manager) (w : world) :
  let o := get_status m w in
  mgr_after o = m ∧ journal o = [] ∧
  fs (world_after o) = fs w ∧ net (world_after o) = net w ∧
  ∃ info, res o = Ok info ∧
    si_workflow_id info = workflow_id m ∧ si_status info = status_of m ∧
    si_progress info = progress m ∧ si_task_id info = task_id m ∧
    (∀ started ended, start_time m = Some (S started) → end_time m = Some (S ended) →
       world_after o = w ∧
       si_duration info = Some (Z.of_nat (S ended) - Z.of_nat (S started))) ∧
    (start_time m = None → world_after o = w ∧ si_duration info = None).
Proof.
  intros o. subst o. unfold get_status, mbind, M_bind, self, mret, M_ret, lift, time_time.
  destruct m as [wid st p t0 t1 wd inp out fr pfr tid]. cbn.
  destruct t0 as [[|started]|], t1 as [[|ended]|]; cbn;
    (split; [done|]); (split; [done|]); (split; [done|]); (split; [done|]);
    eexists; (split; [reflexivity|]); cbn; repeat split; try done;
    try (intros ? ? [= <-] [= <-]; done); try (by intros ? ? [=]); try (by intros ? ? ? [=]);
    try (intros; simplify_eq; done).
Qed.

(** [cancel_workflow] on a session that has not ended marks it
    canceled, stamps the end time and reports success, also when the
    remote cancellation fails; the remote task is cancelled exactly
    when a task id is known. *)
Theorem cancel_workflow_cancels (m : manager) (w : world) :
  is_terminal (status_of m) = false →
  let o := cancel_workflow m w in
  res o = Ok {| success := true; canceled_workflow := Some (workflow_id m) |} ∧
  status_of (mgr_after o) = STATUS_CANCELED ∧
  end_time (mgr_after o) = Some (clock w) ∧
  fs (world_after o) = fs w ∧
  canceled_tasks (net (world_after o))
  = if truthy (task_id m) && is_ok (cancel_answer (net w))
    then canceled_tasks (net w) ++ [the (task_id m) ""]
    else canceled_tasks (net w).
Proof.
  intros Hterm o. subst o. wp_start. unfold cancel_workflow. wp_steps.
  rewrite Hterm. wp_steps. apply wp_time_time. wp_steps.
  destruct m as [wid st p t0 t1 wd inp out fr pfr tid]. mgr_norm.
  destruct (truthy tid) eqn:Htid.
  - wp_steps. apply wp_lift. intros r w'. unfold cancel_task, on_net, time_time.
    destruct w as [f c e s n]. cbn [snd net with_net fs clock entropy pool_schedule].
    destruct (cancel_answer n) as [[]|err]; cbv beta iota zeta.
    all: intros [= <- <-]; wp_steps; done.
  - wp_steps. done.
Qed.

Lemma cancel_workflow_cancels_witness :
  let m := set_task_id (Some "task-1") (set_status STATUS_EXECUTING_WORKFLOW fresh_manager) in
  let o := cancel_workflow m (sample_world 3 [] sample_remote) in
  res o = Ok {| success := true; canceled_workflow := Some None |} ∧
  status_of (mgr_after o) = STATUS_CANCELED ∧
  end_time (mgr_after o) = Some 1%nat ∧
  fs (world_after o) = fs (sample_world 3 [] sample_remote) ∧
  canceled_tasks (net (world_after o)) = ["task-1"].
Proof.
  apply (cancel_workflow_cancels
           (set_task_id (Some "task-1") (set_status STATUS_EXECUTING_WORKFLOW fresh_manager))
           (sample_world 3 [] sample_remote)).
  reflexivity.
Defined.

(** [_reset_state] puts every attribute of the session back to
    what [__init__] sets, and does nothing else. *)
Theorem reset_state_fresh (m : manager) (w : world) :
  let o := _reset_state m w in
  mgr_after o = fresh_manager ∧ res o = Ok tt ∧ world_after o = w.
Proof. destruct m. cbn. done. Qed.

(** [cleanup] that keeps the results removes nothing outside the
    working directory; in particular an output video that is not under
    it stays, and a manager without a working directory removes
    nothing at all. *)
Theorem cleanup_keeps_results (m : manager) (w : world) (p : path) :
  (∀ d, working_dir m = Some d → d ≠ [] → ¬ d `prefix_of` p) →
  fs (world_after (cleanup true m w)) !! p = fs w !! p.
Proof.
  intros Hp. rewrite cleanup_run. cbn [negb andb]. cbn [world_after].
  destruct (working_dir m) as [[|c d]|] eqn:Hd; cbn [truthy_path andb]; try done.
  specialize (Hp (c :: d) eq_refl ltac:(done)).
  change (the (Some (c :: d)) []) with (c :: d).
  destruct (path_exists (fs w) (c :: d)) eqn:Hex; [|done].
  cbn [fs with_fs with_net].
  unfold remove_directory, rmtree. rewrite Hex.
  destruct (fs w !! (c :: d)) as [[|content]|]; cbn [snd]; try done.
  destruct (fs w !! p) as [x|] eqn:E.
  - by apply map_lookup_filter_Some.
  - apply map_lookup_filter_None. by left.
Qed.

Lemma cleanup_keeps_results_witness :
  let w := World {[ ["temp"; "workflow_old"] := Dir;
                    ["temp"; "workflow_old"; "frames"] := Dir;
                    ["outputs"; "old_replicated.mp4"] := File (Encoded fps30 []) ]}
                 1 0 [] sample_remote in
  fs (world_after (cleanup true finished_manager w)) !! ["outputs"; "old_replicated.mp4"]
  = fs w !! ["outputs"; "old_replicated.mp4"].
Proof.
  apply (cleanup_keeps_results finished_manager).
  intros d Hd _ [k Hk]. injection Hd as <-. simpl in Hk. discriminate Hk.
Defined.

Lemma path_join_ne_nil (dir : path) (name : string) : path_join dir name ≠ [].
Proof. unfold path_join. by destruct dir. Qed.

Lemma frames_to_video_ok (vp : VideoProcessor) (frame_paths : list path)
    (output_path : path) (fps : float) (w w' : world) (a : path) :
  frames_to_video vp frame_paths output_path fps w = (Ok a, w') →
  a = output_path ∧ frame_paths ≠ [] ∧
  (float_positive fps = true → encoder_accepts vp fps = true → output_path ≠ [] →
   fs w' !! output_path ≠ Some Dir →
   ∃ written, fs w' !! output_path = Some (File (Encoded fps written))).
Proof.
  rewrite frames_to_video_run.
  destruct frame_paths as [|first_path rest]; [done|].
  pose proof (can_create_after_mkdir output_path (fs w)) as Hcreate.
  pose proof (mkdir_parents_keeps [] (dirname output_path) (fs w) output_path Dir) as Hkeeps.
  fold (ensure_directory (dirname output_path) (fs w)) in Hkeeps.
  destruct (ensure_directory (dirname output_path) (fs w)) as [[[]|e] f1]; [|done].
  cbn [fst snd] in Hcreate, Hkeeps. specialize (Hcreate eq_refl).
  destruct (imread f1 first_path) as [first_frame|]; [|done].
  unfold writer_opens, time_time. cbn [fs with_fs snd]. rewrite Hcreate.
  intros [= <- <-]. split; [done|]. split; [done|].
  intros -> -> Hne. rewrite bool_decide_false by done.
  destruct (is_dir (fs w) output_path) eqn:Hd; cbn [negb andb fs with_fs].
  - intros Hdir. destruct Hdir. apply Hkeeps. unfold is_dir in Hd.
    by destruct (fs w !! output_path) as [[|c]|].
  - intros _. eexists. by rewrite lookup_insert_eq.
Qed.

(** A run of [start_workflow] that returns has gone all the way:
    the session is completed at progress 100 with an end time and a
    task id. With a rate (the configured one, or that of the input when
    none is configured) that is above 0 and taken by the encoder, the
    output video has been written to
    [<output_dir>/<input name without extension>_replicated.mp4],
    encoded at that rate, unless a directory stands at this path; no
    test tells a run that wrote no video from one that did. *)
Theorem start_workflow_produces_output (vp : VideoProcessor) (input_video : path)
    (cfg : workflow_config) (m : manager) (w : world) (cap : video) :
  fs w !! input_video = Some (File (Video cap)) →
  let o := start_workflow vp input_video cfg m w in
  let output := path_join (output_dir vp)
                  (splitext_root (basename input_video) +:+ "_replicated.mp4") in
  let fps := the (frame_rate cfg) (video_fps cap) in
  ∀ s, res o = Ok s →
    sum_status s = STATUS_COMPLETED ∧
    sum_input_video s = Some input_video ∧
    sum_output_video s = Some output ∧
    status_of (mgr_after o) = STATUS_COMPLETED ∧
    (progress (mgr_after o) == 100)%Q ∧
    is_Some (end_time (mgr_after o)) ∧
    truthy (task_id (mgr_after o)) = true ∧
    processed_frame_paths (mgr_after o) ≠ [] ∧
    (float_positive fps = true → encoder_accepts vp fps = true →
     fs (world_after o) !! output ≠ Some Dir →
     ∃ written, fs (world_after o) !! output = Some (File (Encoded fps written))).
Proof.
  intros Hvideo o output fps. subst o output fps. wp_start.
  destruct m as [wid st p t0 t1 wd inp out fr pfr tid].
  wp_hide_post. unfold start_workflow.
  wp_steps. wp_total.
  replace (path_exists (fs w) input_video) with true
    by (unfold path_exists; by rewrite Hvideo).
  cbn [negb].
  repeat first [wp_step; mgr_norm | wp_total].
  apply wp_lift; intros [[]|e1] w1 E1; cbv beta iota zeta.
  2:{ wp_explore. all: subst post; cbv beta. all: intros s Hs; discriminate Hs. }
  pose proof (on_fs_ensure_directory_keeps _ _ _ _ _ _ E1 Hvideo) as Hvideo1.
  clear E1.
  repeat first [wp_step; mgr_norm | wp_total].
  apply (wp_get_video_info _ _ cap); [exact Hvideo1|]. cbv beta iota zeta.
  wp_explore.
  all: subst post; cbv beta.
  all: intros s Hs; try discriminate Hs.
  all: injection Hs as <-.
  all: repeat match goal with
         | H : frames_to_video _ _ _ _ _ = (Ok _, _) |- _ =>
             apply frames_to_video_ok in H as (_ & ? & ?)
         | H : negb (truthy _) = false |- _ => apply negb_false_iff in H
         end.
  all: repeat match goal with |- _ ∧ _ => split end.
  all: try (lazy; reflexivity).
  all: try (cbn [end_time mgr_after]; eauto; fail).
  all: try assumption.
  all: intros Hrate Hencoder Hnodir;
       match goal with
       | H : _ → _ → _ → _ → ∃ _, _ |- _ =>
           apply H; [exact Hrate|exact Hencoder|apply path_join_ne_nil|exact Hnodir]
       end.
Qed.

Lemma start_workflow_produces_output_witness :
  let o := start_workflow sample_processor ["input.mp4"] plain_config fresh_manager
             (sample_world 3 [] sample_remote) in
  ∃ s, res o = Ok s ∧
    sum_status s = STATUS_COMPLETED ∧
    sum_input_video s = Some ["input.mp4"] ∧
    sum_output_video s = Some ["outputs"; "input_replicated.mp4"] ∧
    status_of (mgr_after o) = STATUS_COMPLETED ∧
    (progress (mgr_after o) == 100)%Q ∧
    is_Some (end_time (mgr_after o)) ∧
    truthy (task_id (mgr_after o)) = true ∧
    processed_frame_paths (mgr_after o) ≠ [] ∧
    ∃ written, fs (world_after o) !! ["outputs"; "input_replicated.mp4"]
               = Some (File (Encoded fps30 written)).
Proof.
  intros o.
  assert (Hres : ∃ s, res o = Ok s) by (eexists; vm_compute; reflexivity).
  destruct Hres as [s Hres]. exists s. split; [exact Hres|].
  destruct (start_workflow_produces_output sample_processor ["input.mp4"] plain_config
              fresh_manager (sample_world 3 [] sample_remote) (sample_video 3)
              ltac:(reflexivity) s Hres)
    as (H1 & H2 & H3 & H4 & H5 & H6 & H7 & H8 & H9).
  split; [exact H1|]. split; [exact H2|]. split; [exact H3|]. split; [exact H4|].
  split; [exact H5|]. split; [exact H6|]. split; [exact H7|]. split; [exact H8|].
  apply H9; [reflexivity|reflexivity|]. vm_compute. discriminate.
Defined.

Lemma in_pipeline_order_sound (replacing : bool) (r : result summary) (l : list status) :
  in_pipeline_order replacing (is_ok r) l = true →
  match r with
  | Ok _ => l = pipeline replacing
  | Raise _ =>
      ∃ n, (n < length (pipeline replacing))%nat ∧
           l = take n (pipeline replacing) ++ replicate (failed_writes n) STATUS_FAILED
  end.
Proof.
  unfold in_pipeline_order. destruct r as [s|e]; cbn [is_ok].
  - apply bool_decide_eq_true.
  - intros (n & Hn & H)%existsb_exists. apply bool_decide_eq_true in H.
    exists n. split; [|done]. apply list_elem_of_In, elem_of_seq in Hn. lia.
Qed.

(** The statuses a call of [start_workflow] writes follow the
    pipeline: idle at the reset, preparing (once by [start_workflow],
    once by [_execute_workflow_steps]), extracting_frames,
    preprocessing_frames, the local replacement exactly when the
    configuration enables one, uploading_frames, executing_workflow,
    downloading_results, composing_video, completed. A call that
    returns has written the whole sequence; a call that raises has
    written a proper first part of it and then 'failed': once when it
    failed before [_execute_workflow_steps] was entered, twice
    otherwise. *)
Theorem start_workflow_status_order (vp : VideoProcessor) (input_video : path)
    (cfg : workflow_config) (m : manager) (w : world) :
  let o := start_workflow vp input_video cfg m w in
  let written := status_writes (journal o) in
  let whole := pipeline (has_replacement cfg) in
  match res o with
  | Ok _ => written = whole
  | Raise _ =>
      ∃ n, (n < length whole)%nat ∧
           written = take n whole ++ replicate (failed_writes n) STATUS_FAILED
  end.
Proof.
  intros o written whole. subst written whole. apply in_pipeline_order_sound.
  subst o. wp_start.
  destruct m as [wid st p t0 t1 wd inp out fr pfr tid].
  wp_hide_post. unfold start_workflow.
  wp_explore.
  all: subst post; cbv beta.
  all: repeat match goal with
         | H : has_replacement _ = _ |- _ => rewrite H; clear H
         end.
  all: try match goal with
           | |- context [has_replacement ?c] => destruct (has_replacement c)
           end.
  all: lazy; reflexivity.
Qed.
